(** * Grafana Live: the channel registry and data streams of [CentrifugeSrv]

    A shallow embedding of [public/app/features/live/live.ts].  The service
    is a record holding the registry map [open], a store of channel objects
    addressed by reference, and the transport's connection flags.  The
    asynchronous parts of the service (the promise returned by
    [initChannel], its [catch] handler, the transport's callbacks) are
    events of a labelled transition function [step]; whatever the service
    awaits from its collaborators is carried by the event. *)

From stdpp Require Import base strings list gmap pretty.

Open Scope string_scope.
Open Scope list_scope.
Open Scope nat_scope.

(** ** Data model *)

(** The four scopes of [LiveChannelScope]. *)
Inductive LiveChannelScope := DataSource | Plugin | Grafana | Stream.

(** Modelled from the spec: the enum [LiveChannelScope] is declared in the
    data package, outside the files at hand.  The spec names its four
    variants (core, per-datasource, per-plugin, ad hoc stream) and writes the
    core scope [grafana]; the other three are given a string value each,
    and no property below depends on which. *)
Definition scopeValue (s : LiveChannelScope) : string :=
  match s with
  | DataSource => "ds"
  | Plugin => "plugin"
  | Grafana => "grafana"
  | Stream => "stream"
  end.

Module Addr.
Record t := mk { scope : string; namespace : string; path : string }.
End Addr.
Abbreviation LiveChannelAddress := Addr.t.

Inductive LiveChannelConnectionState :=
  Pending | Connected | Disconnected | Shutdown | Invalid.

Definition terminal (s : LiveChannelConnectionState) : bool :=
  match s with Shutdown | Invalid => true | _ => false end.

(** Modelled from the spec: [LiveChannelConfig] is the capability descriptor
    of a namespace and path (presence, publishing). *)
Record LiveChannelConfig := { hasPresence : bool; canPublish : bool }.

(** Modelled from the spec: a Support object, given by what its
    [getChannelConfig(path)] answers; [None] is the [undefined] sentinel. *)
Record ChannelSupport := { getChannelConfig : string → option LiveChannelConfig }.

(** ** Frames *)

Inductive FieldType := FTime | FNumber | FString | FBoolean | FOther.

Record FieldSchema := { fname : string; ftype : FieldType }.

Inductive Value := VNull | VNum (z : Z) | VStr (s : string).

Definition Row := list Value.

(** Modelled from the spec: a frame message is an envelope that carries a
    schema (ordered field definitions), rows keyed to the last schema, or
    both. *)
Module Msg.
Record t := mk { schema : option (list FieldSchema); data : list Row }.
End Msg.
Abbreviation DataFrameJSON := Msg.t.

(** Modelled from the spec: a frame, its ordered field definitions and its
    rows. *)
Module Frame.
Record t := mk { fields : list FieldSchema; rows : list Row }.
End Frame.
Abbreviation DataFrame := Frame.t.

(** Modelled from the spec: [dataFrameToJSON] turns a frame into a message
    carrying its schema and its rows. *)
Definition dataFrameToJSON (f : DataFrame) : DataFrameJSON :=
  Msg.mk (Some (Frame.fields f)) (Frame.rows f).

(** ** Channels *)

Inductive LiveChannelEvent :=
| MessageEvent (message : DataFrameJSON)
| StatusEvent (state : LiveChannelConnectionState) (error : option string)
    (message : option DataFrameJSON).

(** A channel object.  [id], [addr], [state] and [error] (the two fields of
    [currentStatus] the service reads and writes), [subscription] and
    [shutdownCallback] are the fields [live.ts] uses.  The closure
    [() => this.open.delete(id)] is kept as the key it deletes.  [stream] is
    the sequence of events sent on the channel's stream so far and [stopped]
    tells that the stream has ended. *)
Module Channel.
Record t := mk {
    id : string;
    addr : LiveChannelAddress;
    state : LiveChannelConnectionState;
    error : option string;
    config : option LiveChannelConfig;
    subscription : bool;
    shutdownCallback : option string;
    lastMessageWithSchema : option DataFrameJSON;
    stream : list LiveChannelEvent;
    stopped : bool
  }.

Definition set_state (s : LiveChannelConnectionState) (c : t) : t :=
    mk (id c) (addr c) s (error c) (config c) (subscription c)
       (shutdownCallback c) (lastMessageWithSchema c) (stream c) (stopped c).
Definition set_error (e : option string) (c : t) : t :=
    mk (id c) (addr c) (state c) e (config c) (subscription c)
       (shutdownCallback c) (lastMessageWithSchema c) (stream c) (stopped c).
Definition set_config (g : option LiveChannelConfig) (c : t) : t :=
    mk (id c) (addr c) (state c) (error c) g (subscription c)
       (shutdownCallback c) (lastMessageWithSchema c) (stream c) (stopped c).
Definition set_subscription (b : bool) (c : t) : t :=
    mk (id c) (addr c) (state c) (error c) (config c) b
       (shutdownCallback c) (lastMessageWithSchema c) (stream c) (stopped c).
Definition set_shutdownCallback (k : option string) (c : t) : t :=
    mk (id c) (addr c) (state c) (error c) (config c) (subscription c)
       k (lastMessageWithSchema c) (stream c) (stopped c).
Definition set_last (m : option DataFrameJSON) (c : t) : t :=
    mk (id c) (addr c) (state c) (error c) (config c) (subscription c)
       (shutdownCallback c) m (stream c) (stopped c).
Definition set_stream (evs : list LiveChannelEvent) (c : t) : t :=
    mk (id c) (addr c) (state c) (error c) (config c) (subscription c)
       (shutdownCallback c) (lastMessageWithSchema c) evs (stopped c).
Definition set_stopped (b : bool) (c : t) : t :=
    mk (id c) (addr c) (state c) (error c) (config c) (subscription c)
       (shutdownCallback c) (lastMessageWithSchema c) (stream c) b.

  (** Modelled from the spec: the constructor of [CentrifugeLiveChannel]
      (in [channel.ts]); a channel is created in the Pending state. *)
Definition new (id : string) (addr : LiveChannelAddress) : t :=
    mk id addr Pending None None false None None [] false.

  (** Modelled from the spec: an event sent on the stream; nothing is
      delivered once the stream has ended. *)
Definition send (ev : LiveChannelEvent) (c : t) : t :=
    if stopped c then c else set_stream (stream c ++ [ev]) c.

  (** Modelled from the spec: [sendStatus], a status event carrying the
      current state and error. *)
Definition sendStatus (c : t) : t :=
    send (StatusEvent (state c) (error c) None) c.

  (** Modelled from the spec: [initalize(config)] records the channel's
      configuration and hands back the subscription's event handlers. *)
Definition initalize (g : LiveChannelConfig) (c : t) : t :=
    set_config (Some g) c.
End Channel.
Abbreviation CentrifugeLiveChannel := Channel.t.

(** Modelled from the spec: [getErrorChannel] (in [channel.ts]) builds a
    channel that is Invalid from the start, whose stream delivers one status
    event with the error and ends, and which has no teardown callback. *)
Definition getErrorChannel (msg id : string) (addr : LiveChannelAddress)
  : CentrifugeLiveChannel :=
  Channel.mk id addr Invalid (Some msg) None false None None
    [StatusEvent Invalid (Some msg) None] true.

(** ** The service *)

(** Where the promise chain [this.initChannel(scope, channel).catch(...)] of
    a channel stands. *)
Inductive InitTask :=
| NoInit                              (* [initChannel] was never called *)
| AwaitSupport (s : LiveChannelScope) (* at [await scope.getChannelSupport] *)
| AwaitBlocker                        (* at [await this.connectionBlocker] *)
| Rejected (err : string)             (* rejected, [catch] handler pending *)
| Caught                              (* the [catch] handler has run *)
| Fulfilled.                          (* [initChannel] returned *)

Module Srv.
Record t := mk {
    open : gmap string nat;
    heap : list (CentrifugeLiveChannel * InitTask);
    isConnected : bool;
    blockerResolved : bool;
    connectionState : bool
  }.

Definition set_open (m : gmap string nat) (s : t) : t :=
    mk m (heap s) (isConnected s) (blockerResolved s) (connectionState s).
Definition set_heap (h : list (CentrifugeLiveChannel * InitTask)) (s : t) : t :=
    mk (open s) h (isConnected s) (blockerResolved s) (connectionState s).
End Srv.
Abbreviation CentrifugeSrv := Srv.t.

(** The constructor: an empty registry; the connection blocker is resolved
    at once when the transport is already connected. *)
Definition newCentrifugeSrv (connected : bool) : CentrifugeSrv :=
  Srv.mk ∅ [] connected connected connected.

(** What is left of [s] after the prefix [p], when [s] starts with [p]. *)
Fixpoint stripPrefix (p s : string) : option string :=
  match p with
  | EmptyString => Some s
  | String a p =>
      match s with
      | String b s => if Ascii.eqb a b then stripPrefix p s else None
      | EmptyString => None
      end
  end.

(** The constructor's [liveUrl]: the text [appUrl] followed by [live/ws],
    in which the pattern [^(http)(s)?://] is replaced by [ws$2://].  The
    pattern matches at the start only, with or without the [s], which the
    replacement keeps. *)
Definition liveUrl (appUrl : string) : string :=
  let url := appUrl +:+ "live/ws" in
  match stripPrefix "https://" url with
  | Some rest => "wss://" +:+ rest
  | None =>
      match stripPrefix "http://" url with
      | Some rest => "ws://" +:+ rest
      | None => url
      end
  end.

(** [this.scopes]: the record from scope value to scope object. *)
Definition scopes : gmap string LiveChannelScope :=
  <[scopeValue Stream := Stream]>
    (<[scopeValue Plugin := Plugin]>
       (<[scopeValue DataSource := DataSource]>
          (<[scopeValue Grafana := Grafana]> ∅))).

Definition channelId (addr : LiveChannelAddress) : string :=
  Addr.scope addr +:+ "/" +:+ Addr.namespace addr +:+ "/" +:+ Addr.path addr.

(** [getChannel]: the service after the call and the reference returned. *)
Definition getChannel (srv : CentrifugeSrv) (addr : LiveChannelAddress)
  : CentrifugeSrv * nat :=
  let id := channelId addr in
  match Srv.open srv !! id with
  | Some l => (srv, l)
  | None =>
      let l := length (Srv.heap srv) in
      match scopes !! Addr.scope addr with
      | None =>
          (Srv.set_heap (Srv.heap srv ++ [(getErrorChannel "invalid scope" id addr, NoInit)]) srv, l)
      | Some scope =>
          let channel := Channel.set_shutdownCallback (Some id) (Channel.new id addr) in
          (Srv.set_open (<[id := l]> (Srv.open srv))
             (Srv.set_heap (Srv.heap srv ++ [(channel, AwaitSupport scope)]) srv), l)
      end
  end.

(** ** Asynchronous behaviour *)

(** What [this.centrifuge.subscribe(channel.id, events)] does: it hands back
    a subscription or throws. *)
Inductive SubscribeOutcome := SubOk | SubThrows (err : string).

Inductive Event :=
| EGetChannel (addr : LiveChannelAddress)
    (* a caller runs [getChannel(addr)] *)
| ESupport (l : nat) (support : option ChannelSupport) (out : SubscribeOutcome)
    (* [scope.getChannelSupport] settles and [initChannel] resumes *)
| EGate (l : nat) (out : SubscribeOutcome)
    (* [initChannel] resumes after [await this.connectionBlocker] *)
| ECatch (l : nat)
    (* the [catch] handler of a rejected [initChannel] runs *)
| EConnect                (* the transport's connect event *)
| EDisconnect             (* the transport's disconnect event *)
| ESubscribed (l : nat)   (* the transport acknowledges the subscription *)
| EUnsubscribed (l : nat) (* the transport signals the subscription's loss *)
| EPublish (l : nat) (msg : DataFrameJSON)
| EShutdown (l : nat).    (* the channel is shut down explicitly *)

(** Modelled from the spec: the channel's teardown (in [channel.ts]) ends
    the stream and drops the subscription handle; it tells whether the
    registry's teardown callback is to run, which happens once. *)
Definition endStream (c : CentrifugeLiveChannel) : CentrifugeLiveChannel * bool :=
  if Channel.stopped c then (c, false)
  else (Channel.set_stopped true (Channel.set_subscription false c), true).

(** Modelled from the spec: [shutdownWithError(err)] surfaces the error as
    one status event on the channel's stream and tears the channel down. *)
Definition shutdownWithError (err : string) (c : CentrifugeLiveChannel)
  : CentrifugeLiveChannel * bool :=
  endStream (Channel.sendStatus (Channel.set_error (Some err) c)).

(** Modelled from the spec: the explicit shutdown of a channel; a channel in
    a terminal state stays as it is. *)
Definition disconnect (c : CentrifugeLiveChannel) : CentrifugeLiveChannel * bool :=
  if terminal (Channel.state c) then (c, false)
  else endStream (Channel.set_state Shutdown c).

(** Modelled from the spec: the transport acknowledges the subscription; a
    channel that is not in a terminal state becomes Connected. *)
Definition onSubscribe (c : CentrifugeLiveChannel) : CentrifugeLiveChannel :=
  if terminal (Channel.state c) then c
  else Channel.sendStatus (Channel.set_error None (Channel.set_state Connected c)).

(** Modelled from the spec: the transport signals the loss of the
    subscription; a Connected channel becomes Disconnected. *)
Definition onUnsubscribe (c : CentrifugeLiveChannel) : CentrifugeLiveChannel :=
  match Channel.state c with
  | Connected => Channel.sendStatus (Channel.set_state Disconnected c)
  | _ => c
  end.

(** Modelled from the spec: a message published on the subscription is sent
    on the stream of a Connected channel, and cached when it has a schema. *)
Definition onPublish (msg : DataFrameJSON) (c : CentrifugeLiveChannel)
  : CentrifugeLiveChannel :=
  match Channel.state c with
  | Connected =>
      let c1 := match Msg.schema msg with
                | Some _ => Channel.set_last (Some msg) c
                | None => c
                end in
      Channel.send (MessageEvent msg) c1
  | _ => c
  end.

(** [channel.shutdownCallback()], when the channel has one. *)
Definition runShutdownCallback (c : CentrifugeLiveChannel) (srv : CentrifugeSrv)
  : CentrifugeSrv :=
  match Channel.shutdownCallback c with
  | Some k => Srv.set_open (delete k (Srv.open srv)) srv
  | None => srv
  end.

Definition store (l : nat) (c : CentrifugeLiveChannel) (t : InitTask)
  (srv : CentrifugeSrv) : CentrifugeSrv :=
  Srv.set_heap (<[l := (c, t)]> (Srv.heap srv)) srv.

Definition fire (fired : bool) (c : CentrifugeLiveChannel) (srv : CentrifugeSrv)
  : CentrifugeSrv :=
  if fired then runShutdownCallback c srv else srv.

(** [channel.subscription = this.centrifuge.subscribe(channel.id, events)],
    the last statement of [initChannel]. *)
Definition subscribe (out : SubscribeOutcome) (c : CentrifugeLiveChannel)
  : CentrifugeLiveChannel * InitTask :=
  match out with
  | SubThrows e => (c, Rejected e)
  | SubOk => (Channel.set_subscription true c, Fulfilled)
  end.

(** [initChannel] from the point where [scope.getChannelSupport] has settled
    with [support], up to its next suspension or its end. *)
Definition initChannel (srv : CentrifugeSrv) (channel : CentrifugeLiveChannel)
  (support : option ChannelSupport) (out : SubscribeOutcome)
  : CentrifugeLiveChannel * InitTask :=
  let addr := Channel.addr channel in
  match support with
  | None => (channel, Rejected (Addr.namespace addr +:+ " does not support streaming"))
  | Some sup =>
      match getChannelConfig sup (Addr.path addr) with
      | None => (channel, Rejected ("unknown path: " +:+ Addr.path addr))
      | Some config =>
          let channel := Channel.initalize config channel in
          if negb (Srv.isConnected srv) then (channel, AwaitBlocker)
          else subscribe out channel
      end
  end.

(** The [catch] handler installed by [getChannel]. *)
Definition catchInit (l : nat) (channel : CentrifugeLiveChannel) (err : string)
  (srv : CentrifugeSrv) : CentrifugeSrv :=
  let '(c, fired) := shutdownWithError err (Channel.set_state Invalid channel) in
  let srv := fire fired c (store l c Caught srv) in
  Srv.set_open (delete (Channel.id channel) (Srv.open srv)) srv.

Definition onConnect (srv : CentrifugeSrv) : CentrifugeSrv :=
  Srv.mk (Srv.open srv) (Srv.heap srv) true true true.

Definition onDisconnect (srv : CentrifugeSrv) : CentrifugeSrv :=
  Srv.mk (Srv.open srv) (Srv.heap srv) false (Srv.blockerResolved srv) false.

(** One event; [None] when the event cannot happen in this state. *)
Definition step (srv : CentrifugeSrv) (ev : Event) : option CentrifugeSrv :=
  match ev with
  | EGetChannel addr => Some (getChannel srv addr).1
  | ESupport l support out =>
      match Srv.heap srv !! l with
      | Some (c, AwaitSupport _) =>
          let '(c, t) := initChannel srv c support out in Some (store l c t srv)
      | _ => None
      end
  | EGate l out =>
      match Srv.heap srv !! l with
      | Some (c, AwaitBlocker) =>
          if Srv.blockerResolved srv
          then let '(c, t) := subscribe out c in Some (store l c t srv)
          else None
      | _ => None
      end
  | ECatch l =>
      match Srv.heap srv !! l with
      | Some (c, Rejected err) => Some (catchInit l c err srv)
      | _ => None
      end
  | EConnect => Some (onConnect srv)
  | EDisconnect => Some (onDisconnect srv)
  | ESubscribed l =>
      match Srv.heap srv !! l with
      | Some (c, t) =>
          if Channel.subscription c then Some (store l (onSubscribe c) t srv) else None
      | None => None
      end
  | EUnsubscribed l =>
      match Srv.heap srv !! l with
      | Some (c, t) =>
          if Channel.subscription c then Some (store l (onUnsubscribe c) t srv) else None
      | None => None
      end
  | EPublish l msg =>
      match Srv.heap srv !! l with
      | Some (c, t) =>
          if Channel.subscription c then Some (store l (onPublish msg c) t srv) else None
      | None => None
      end
  | EShutdown l =>
      match Srv.heap srv !! l with
      | Some (c, t) =>
          let '(c', fired) := disconnect c in Some (fire fired c' (store l c' t srv))
      | None => None
      end
  end.

Fixpoint run (srv : CentrifugeSrv) (evs : list Event) : option CentrifugeSrv :=
  match evs with
  | [] => Some srv
  | ev :: evs => match step srv ev with Some srv' => run srv' evs | None => None end
  end.

Definition channelAt (srv : CentrifugeSrv) (l : nat) : option CentrifugeLiveChannel :=
  fst <$> Srv.heap srv !! l.

Definition taskAt (srv : CentrifugeSrv) (l : nat) : option InitTask :=
  snd <$> Srv.heap srv !! l.

Definition stateAt (srv : CentrifugeSrv) (l : nat) : option LiveChannelConnectionState :=
  Channel.state <$> channelAt srv l.

(** ** The frame buffer *)

(** Modelled from the spec: [StreamingDataFrame], the frame buffer: a
    schema, the rows held and the maximum length it was configured with. *)
Module SDF.
Record t := mk {
    fields : list FieldSchema;
    rows : list Row;
    maxLength : option nat
  }.
End SDF.
Abbreviation StreamingDataFrame := SDF.t.

Inductive LoadingState := NotStarted | Loading | Streaming | Done | Error.

Record DataQueryError := { message : string }.

Module Response.
Record t := mk {
    state : LoadingState;
    data : list (option DataFrame);
    key : option string;
    error : option DataQueryError
  }.
End Response.
Abbreviation DataQueryResponse := Response.t.

(** [LiveDataStreamOptions]: [buffer] is the maximum length configured for
    the frame buffer, [filter] the optional filter with its optional list of
    field names. *)
Module Options.
Record t := mk {
    addr : LiveChannelAddress;
    frame : option DataFrame;
    key : option string;
    buffer : option nat;
    filter : option (option (list string))
  }.
End Options.
Abbreviation LiveDataStreamOptions := Options.t.

(** What the subscriber of a data stream has received. *)
Inductive Notification := Next (r : DataQueryResponse) | Complete.

Global Instance FieldType_eq_dec : EqDecision FieldType.
Proof. solve_decision. Defined.
Global Instance FieldSchema_eq_dec : EqDecision FieldSchema.
Proof. solve_decision. Defined.
Global Instance Value_eq_dec : EqDecision Value.
Proof. solve_decision. Defined.
Global Instance DataFrame_eq_dec : EqDecision DataFrame.
Proof. solve_decision. Defined.
Global Instance LoadingState_eq_dec : EqDecision LoadingState.
Proof. solve_decision. Defined.
Global Instance DataQueryError_eq_dec : EqDecision DataQueryError.
Proof. solve_decision. Defined.
Global Instance DataQueryResponse_eq_dec : EqDecision DataQueryResponse.
Proof. solve_decision. Defined.
Global Instance Notification_eq_dec : EqDecision Notification.
Proof. solve_decision. Defined.

(** What the channel's stream hands to the observer installed by
    [getDataStream]; an event comes with the values of [perf.last] and
    [perf.ok] read while it is handled. *)
Inductive StreamNote :=
| SNext (evt : LiveChannelEvent) (perfLast : Z) (perfOk : bool)
| SError (err : string)
| SComplete.

(** The variables captured by the observer of one subscription.  [filtered]
    is the view handed to the subscriber: absent, the buffer itself
    ([Some None]), or the buffer restricted to the named fields.  [closed]
    tells that [sub.unsubscribe()] was called and [out] is what the
    subscriber received so far. *)
Module Sub.
Record t := mk {
    data : option StreamingDataFrame;
    filtered : option (option (list string));
    state : LoadingState;
    key : string;
    last : Z;
    closed : bool;
    out : list Notification
  }.
End Sub.

Inductive DataStreamObservable :=
| ObsOf (r : DataQueryResponse)          (* [of(r)] *)
| ObsLive (options : LiveDataStreamOptions). (* [new Observable(...)] *)

Inductive Subscribed :=
| Emitted (out : list Notification)
| Listening (channel : nat) (s : Sub.t).

(** JavaScript truthiness of an optional string. *)
Definition truthy (s : option string) : bool :=
  match s with
  | Some (String _ _) => true
  | _ => false
  end.

(** Helpers of the data and runtime packages that [live.ts] imports:
    [isValidLiveChannelAddress], [JSON.stringify] on an address and
    [toDataQueryError].  [relayout] is what a change of schema leaves of the
    rows a frame buffer held under the old schema, which the spec does not
    settle. *)
Class DataImports := {
  isValidLiveChannelAddress : LiveChannelAddress → bool;
  stringify : LiveChannelAddress → string;
  toDataQueryError : string → DataQueryError;
  relayout : list FieldSchema → list FieldSchema → list Row → list Row
}.

Section DataStream.

Context `{DataImports}.

(** Modelled from the spec: the buffer keeps at most [maxLength] rows and
      drops the oldest first. *)
Definition evict (maxLength : option nat) (rows : list Row) : list Row :=
    match maxLength with
    | Some k => drop (length rows - k) rows
    | None => rows
    end.

(** Modelled from the spec: one row appended, the oldest dropped when the
    buffer is full. *)
Definition pushRow (maxLength : option nat) (rows : list Row) (row : Row)
    : list Row :=
    evict maxLength (rows ++ [row]).

  (** Modelled from the spec: [StreamingDataFrame.push]; a schema in the
      message replaces the column layout, the rows of the message are
      appended one by one. *)
Definition push (msg : DataFrameJSON) (d : StreamingDataFrame)
    : StreamingDataFrame :=
    let K := SDF.maxLength d in
    let d1 := match Msg.schema msg with
              | Some fs => SDF.mk fs (evict K (relayout (SDF.fields d) fs (SDF.rows d))) K
              | None => d
              end in
    SDF.mk (SDF.fields d1) (foldl (pushRow K) (SDF.rows d1) (Msg.data msg)) K.

  (** Modelled from the spec: [new StreamingDataFrame(msg, options)]. *)
Definition newStreamingDataFrame (msg : DataFrameJSON) (buffer : option nat)
    : StreamingDataFrame :=
    push msg (SDF.mk [] [] buffer).

(** The values of a row at the fields kept. *)
Fixpoint project (keep : list bool) (row : Row) : Row :=
    match keep, row with
    | k :: keep, v :: row => if k then v :: project keep row else project keep row
    | _, _ => []
    end.

  (** The frame a view shows of the buffer at the time it is handed out. *)
Definition snapshot (view : option (list string)) (d : StreamingDataFrame)
    : DataFrame :=
    match view with
    | None => Frame.mk (SDF.fields d) (SDF.rows d)
    | Some names =>
        let keep := (λ f, bool_decide (fname f ∈ names)) <$> SDF.fields d in
        Frame.mk (filter (λ f, fname f ∈ names) (SDF.fields d))
                 (project keep <$> SDF.rows d)
    end.

  (** [subscriber.next(r)]: nothing is delivered after [complete]. *)
Definition subscriberNext (r : DataQueryResponse) (out : list Notification)
    : list Notification :=
    if bool_decide (Complete ∈ out) then out else out ++ [Next r].

Definition subscriberComplete (out : list Notification) : list Notification :=
    if bool_decide (Complete ∈ out) then out else out ++ [Complete].
(** The closure [process] of [getDataStream]. *)
Definition process (options : LiveDataStreamOptions) (msg : DataFrameJSON)
  (perfLast : Z) (perfOk : bool) (s : Sub.t) : Sub.t :=
  let data :=
    match Sub.data s with
    | None => newStreamingDataFrame msg (Options.buffer options)
    | Some data => push msg data
    end in
  let state := Streaming in
  let filtered :=
    match Sub.filtered s, Msg.schema msg with
    | Some view, None => view
    | _, _ =>
        match Options.filter options with
        | Some (Some (f :: fields)) => Some (f :: fields)
        | _ => None
        end
    end in
  let elapsed := (perfLast - Sub.last s)%Z in
  if bool_decide (1000 < elapsed)%Z || perfOk then
    Sub.mk (Some data) (Some filtered) state (Sub.key s) perfLast (Sub.closed s)
      (subscriberNext
         (Response.mk state [Some (snapshot filtered data)] (Some (Sub.key s)) None)
         (Sub.out s))
  else
    Sub.mk (Some data) (Some filtered) state (Sub.key s) (Sub.last s) (Sub.closed s)
      (Sub.out s).

(** The frame [data] as it stands in a response built by [data: [data]]. *)
Definition dataNow (s : Sub.t) : list (option DataFrame) :=
  [snapshot None <$> Sub.data s].

(** The observer's [error] handler. *)
Definition onStreamError (err : string) (s : Sub.t) : Sub.t :=
  let state := Error in
  Sub.mk (Sub.data s) (Sub.filtered s) state (Sub.key s) (Sub.last s) true
    (subscriberNext
       (Response.mk state (dataNow s) (Some (Sub.key s)) (Some (toDataQueryError err)))
       (Sub.out s)).

(** The observer's [complete] handler. *)
Definition onStreamComplete (s : Sub.t) : Sub.t :=
  let state := match Sub.state s with Error => Error | _ => Done end in
  Sub.mk (Sub.data s) (Sub.filtered s) state (Sub.key s) (Sub.last s) true
    (subscriberComplete (Sub.out s)).

(** The observer's [next] handler. *)
Definition onStreamNext (options : LiveDataStreamOptions) (evt : LiveChannelEvent)
  (perfLast : Z) (perfOk : bool) (s : Sub.t) : Sub.t :=
  match evt with
  | MessageEvent msg => process options msg perfLast perfOk s
  | StatusEvent st err msg =>
      if truthy err then
        let error :=
          {| message := "Streaming channel error: "
                        +:+ message (toDataQueryError (default EmptyString err)) |} in
        let state := Error in
        Sub.mk (Sub.data s) (Sub.filtered s) state (Sub.key s) (Sub.last s) (Sub.closed s)
          (subscriberNext
             (Response.mk state (dataNow s) (Some (Sub.key s)) (Some error))
             (Sub.out s))
      else
        match st, msg with
        | (Connected | Pending), Some msg => process options msg perfLast perfOk s
        | _, _ => s
        end
  end.

(** One notification of the channel's stream reaching the observer; nothing
    reaches it once the subscription is closed. *)
Definition observe (options : LiveDataStreamOptions) (s : Sub.t) (n : StreamNote)
  : Sub.t :=
  if Sub.closed s then s
  else match n with
       | SNext evt perfLast perfOk => onStreamNext options evt perfLast perfOk s
       | SError err => onStreamError err s
       | SComplete => onStreamComplete s
       end.

Definition observeAll (options : LiveDataStreamOptions) (s : Sub.t)
  (ns : list StreamNote) : Sub.t :=
  foldl (observe options) s ns.

(** [getDataStream]: the observable it returns; nothing runs before the
    observable is subscribed to. *)
Definition getDataStream (options : LiveDataStreamOptions) : DataStreamObservable :=
  if negb (isValidLiveChannelAddress (Options.addr options)) then
    ObsOf (Response.mk Error
             (match Options.frame options with Some frame => [Some frame] | None => [] end)
             None
             (Some (toDataQueryError
                      ("invalid channel address: " +:+ stringify (Options.addr options)))))
  else ObsLive options.

(** Subscribing to the observable, with the service, the module's
    [streamCounter] and the value of [perf.last] at that time. *)
Definition subscribeDataStream (srv : CentrifugeSrv) (streamCounter : nat)
  (perfLast : Z) (o : DataStreamObservable) : CentrifugeSrv * nat * Subscribed :=
  match o with
  | ObsOf r => (srv, streamCounter, Emitted [Next r; Complete])
  | ObsLive options =>
      let '(srv, channel) := getChannel srv (Options.addr options) in
      let '(data, state) :=
        match Options.frame options with
        | Some frame =>
            (Some (newStreamingDataFrame (dataFrameToJSON frame) (Options.buffer options)),
             Streaming)
        | None => (None, Loading)
        end in
      let data :=
        match channelAt srv channel ≫= Channel.lastMessageWithSchema, data with
        | Some msg, None => Some (newStreamingDataFrame msg (Options.buffer options))
        | _, _ => data
        end in
      let '(key, streamCounter) :=
        if truthy (Options.key options)
        then (default EmptyString (Options.key options), streamCounter)
        else ("xstr/" +:+ pretty streamCounter, S streamCounter) in
      (srv, streamCounter, Listening channel (Sub.mk data None state key perfLast false []))
  end.

End DataStream.

(** ** [getChannelInfo] *)

Inductive Settled (A : Type) :=
| Resolved (a : A)
| RejectedWith (err : string).
Arguments Resolved {A} a.
Arguments RejectedWith {A} err.

(** [getChannelInfo], given what each scope's [getChannelSupport] answers
    when awaited.  Modelled from the spec: the resolver answers with a
    Support or with the null sentinel. *)
Definition getChannelInfo
  (getChannelSupport : LiveChannelScope → string → option ChannelSupport)
  (addr : LiveChannelAddress) : Settled (option LiveChannelConfig) :=
  match scopes !! Addr.scope addr with
  | None => RejectedWith "invalid scope"
  | Some scope =>
      match getChannelSupport scope (Addr.namespace addr) with
      | None => RejectedWith (Addr.namespace addr +:+ " does not support streaming")
      | Some support => Resolved (getChannelConfig support (Addr.path addr))
      end
  end.

(** * Predicates of the properties *)

(** What holds of the registry in every state the service reaches. *)
Record RegistryInv (srv : CentrifugeSrv) : Prop := {
  inv_open : ∀ k l, Srv.open srv !! k = Some l →
    ∃ c t, Srv.heap srv !! l = Some (c, t) ∧ Channel.id c = k
           ∧ terminal (Channel.state c) = false;
  inv_live : ∀ l c t, Srv.heap srv !! l = Some (c, t) →
    terminal (Channel.state c) = false →
    Channel.stopped c = false ∧ Channel.shutdownCallback c = Some (Channel.id c);
  inv_cb : ∀ l c t k, Srv.heap srv !! l = Some (c, t) →
    Channel.shutdownCallback c = Some k → k = Channel.id c;
  inv_id : ∀ l c t, Srv.heap srv !! l = Some (c, t) →
    Channel.id c = channelId (Channel.addr c)
}.

(** How the event [ev] may change the channel at the reference [l] and its
    initialization: it leaves both alone or runs one of the service's
    continuations or one of the channel's handlers on them. *)
Inductive Evolves (srv : CentrifugeSrv) (l : nat) (ev : Event)
  (c : CentrifugeLiveChannel) (t : InitTask)
  : CentrifugeLiveChannel → InitTask → Prop :=
| ev_same : Evolves srv l ev c t c t
| ev_support scope support out :
    ev = ESupport l support out → t = AwaitSupport scope →
    Evolves srv l ev c t
      (initChannel srv c support out).1 (initChannel srv c support out).2
| ev_gate out :
    ev = EGate l out → t = AwaitBlocker → Srv.blockerResolved srv = true →
    Evolves srv l ev c t (subscribe out c).1 (subscribe out c).2
| ev_catch err :
    ev = ECatch l → t = Rejected err →
    Evolves srv l ev c t (shutdownWithError err (Channel.set_state Invalid c)).1 Caught
| ev_subscribed :
    ev = ESubscribed l → Channel.subscription c = true →
    Evolves srv l ev c t (onSubscribe c) t
| ev_unsubscribed :
    ev = EUnsubscribed l → Channel.subscription c = true →
    Evolves srv l ev c t (onUnsubscribe c) t
| ev_publish msg :
    ev = EPublish l msg → Channel.subscription c = true →
    Evolves srv l ev c t (onPublish msg c) t
| ev_shutdown :
    ev = EShutdown l → Evolves srv l ev c t (disconnect c).1 t.

(** The initialization has not issued a subscription: the channel holds no
    subscription handle and is not Connected. *)
Definition unsubscribed (c : CentrifugeLiveChannel) (t : InitTask) : Prop :=
  t ≠ Fulfilled → Channel.subscription c = false ∧ Channel.state c ≠ Connected.

(** What relates a channel and its initialization to what they are after
    any number of events. *)
Definition Later (c : CentrifugeLiveChannel) (t : InitTask)
  (c' : CentrifugeLiveChannel) (t' : InitTask) : Prop :=
  Channel.id c' = Channel.id c
  ∧ Channel.addr c' = Channel.addr c
  ∧ (Channel.state c = Invalid → Channel.state c' = Invalid)
  ∧ (Channel.stopped c = true →
     Channel.stopped c' = true ∧ Channel.stream c' = Channel.stream c)
  ∧ (t = Caught → t' = Caught)
  ∧ (t = Fulfilled → t' = Fulfilled)
  ∧ (∀ err, t = Rejected err → t' = Rejected err ∨ t' = Caught)
  ∧ (unsubscribed c t → unsubscribed c' t').

(** The states the service reaches from its construction. *)
Definition reachable (srv : CentrifugeSrv) : Prop :=
  ∃ connected evs, run (newCentrifugeSrv connected) evs = Some srv.


(** The transport has never connected, and the channel at [l] has no
    subscription, no finished initialization and is not Connected. *)
Definition gated (srv : CentrifugeSrv) (l : nat) : Prop :=
  Srv.isConnected srv = false
  ∧ Srv.blockerResolved srv = false
  ∧ ∃ c t, Srv.heap srv !! l = Some (c, t)
           ∧ Channel.subscription c = false ∧ t ≠ Fulfilled
           ∧ Channel.state c ≠ Connected.

(** The rows a notification of the channel's stream carries as a message
    event, and whether it is a message event without a schema. *)
Definition noteRows (n : StreamNote) : list Row :=
  match n with
  | SNext (MessageEvent msg) _ _ => Msg.data msg
  | _ => []
  end.

Definition dataOnly (n : StreamNote) : bool :=
  match n with
  | SNext (MessageEvent msg) _ _ =>
      match Msg.schema msg with None => true | Some _ => false end
  | _ => false
  end.

(** The rows of a buffer fit its capacity. *)
Definition fits (d : StreamingDataFrame) : Prop :=
  evict (SDF.maxLength d) (SDF.rows d) = SDF.rows d.

(** Whether a text holds the separator [/] of the registry keys. *)
Fixpoint hasSlash (s : string) : bool :=
  match s with
  | EmptyString => false
  | String a s => Ascii.eqb a (Ascii.ascii_of_nat 47) || hasSlash s
  end.

(** The channel an event tears down: the [catch] handler of a failed
    initialization and the explicit shutdown. *)
Definition teardownOf (ev : Event) : option nat :=
  match ev with
  | ECatch l | EShutdown l => Some l
  | _ => None
  end.

(** The channel an event is addressed to. *)
Definition targetOf (ev : Event) : option nat :=
  match ev with
  | ESupport l _ _ | EGate l _ | ECatch l | ESubscribed l | EUnsubscribed l
  | EPublish l _ | EShutdown l => Some l
  | EGetChannel _ | EConnect | EDisconnect => None
  end.

(** How far the initialization of a channel has come, as its fields show:
    no configuration and no subscription before the resolver has answered;
    a configuration but no subscription at the connection blocker; a
    configuration once [initChannel] has returned; no subscription when it
    has failed. *)
Definition staged (c : CentrifugeLiveChannel) (t : InitTask) : Prop :=
  match t with
  | NoInit | AwaitSupport _ =>
      Channel.config c = None ∧ Channel.subscription c = false
  | AwaitBlocker => is_Some (Channel.config c) ∧ Channel.subscription c = false
  | Fulfilled => is_Some (Channel.config c)
  | Rejected _ | Caught => Channel.subscription c = false
  end.

(** A message event without a schema that the throttle of [process] holds
    back, [last] being the time of the last response: [perf.ok] is false
    and no more than 1000 have elapsed. *)
Definition throttled (last : Z) (n : StreamNote) : bool :=
  match n with
  | SNext (MessageEvent msg) perfLast perfOk =>
      match Msg.schema msg with
      | None => negb perfOk && bool_decide (perfLast - last ≤ 1000)%Z
      | Some _ => false
      end
  | _ => false
  end.

(** * Example values *)

Definition dashboard : LiveChannelAddress := Addr.mk "grafana" "dashboard" "abc".

Definition nested : LiveChannelAddress := Addr.mk "grafana" "a" "b/c".


Definition no_config : ChannelSupport := {| getChannelConfig := λ _, None |}.

Definition with_config : ChannelSupport :=
  {| getChannelConfig := λ _, Some {| hasPresence := false; canPublish := false |} |}.

(** An instance of the imported helpers, for the examples: an address is
    valid when none of its parts is empty, it is printed as its key, an
    error keeps its message, and a change of schema drops the rows. *)
Definition exampleImports : DataImports := {|
  isValidLiveChannelAddress := λ a,
    truthy (Some (Addr.scope a)) && truthy (Some (Addr.namespace a))
    && truthy (Some (Addr.path a));
  stringify := channelId;
  toDataQueryError := λ s, {| message := s |};
  relayout := λ _ _ _, []
|}.

Definition row (z : Z) : Row := [VNum z].

Definition tail2 : LiveDataStreamOptions :=
  Options.mk dashboard None (Some "tail") (Some 2) None.

Definition keyless : LiveDataStreamOptions := Options.mk dashboard None None None None.

Definition no_path : LiveDataStreamOptions :=
  Options.mk (Addr.mk "grafana" "dashboard" EmptyString)
    (Some (Frame.mk [] [row 1])) None None None.

(** * Properties *)

(** ** The store and the registry map *)

Lemma heap_store srv l c t l' :
  Srv.heap (store l c t srv) !! l' =
  if decide (l = l' ∧ l < length (Srv.heap srv)) then Some (c, t)
  else Srv.heap srv !! l'.
Proof. unfold store. simpl. apply list_lookup_insert. Qed.

Lemma heap_store_eq srv l c t c0 t0 :
  Srv.heap srv !! l = Some (c0, t0) → Srv.heap (store l c t srv) !! l = Some (c, t).
Proof.
  intros H. rewrite heap_store. apply lookup_lt_Some in H.
  case_decide as Hd; [done|]. exfalso. apply Hd. done.
Qed.

Lemma heap_store_ne srv l c t l' :
  l ≠ l' → Srv.heap (store l c t srv) !! l' = Srv.heap srv !! l'.
Proof. intros H. rewrite heap_store. case_decide as Hd; [|done]. by destruct Hd. Qed.

Lemma length_store srv l c t :
  length (Srv.heap (store l c t srv)) = length (Srv.heap srv).
Proof. unfold store. simpl. apply length_insert. Qed.

Lemma open_store srv l c t : Srv.open (store l c t srv) = Srv.open srv.
Proof. done. Qed.

Lemma open_fire fired c srv :
  Srv.open (fire fired c srv) =
  match fired, Channel.shutdownCallback c with
  | true, Some k => delete k (Srv.open srv)
  | _, _ => Srv.open srv
  end.
Proof. unfold fire, runShutdownCallback. destruct fired, (Channel.shutdownCallback c); done. Qed.

Lemma heap_fire fired c srv : Srv.heap (fire fired c srv) = Srv.heap srv.
Proof. unfold fire, runShutdownCallback. destruct fired, (Channel.shutdownCallback c); done. Qed.

Lemma getChannel_hit srv addr l :
  Srv.open srv !! channelId addr = Some l → getChannel srv addr = (srv, l).
Proof. intros H. unfold getChannel. by rewrite H. Qed.

Lemma getChannel_create srv addr scope :
  Srv.open srv !! channelId addr = None →
  scopes !! Addr.scope addr = Some scope →
  getChannel srv addr =
    (Srv.set_open (<[channelId addr := length (Srv.heap srv)]> (Srv.open srv))
       (Srv.set_heap
          (Srv.heap srv ++
             [(Channel.set_shutdownCallback (Some (channelId addr))
                 (Channel.new (channelId addr) addr), AwaitSupport scope)]) srv),
     length (Srv.heap srv)).
Proof. intros H1 H2. unfold getChannel. by rewrite H1, H2. Qed.

Lemma getChannel_error srv addr :
  Srv.open srv !! channelId addr = None →
  scopes !! Addr.scope addr = None →
  getChannel srv addr =
    (Srv.set_heap
       (Srv.heap srv ++ [(getErrorChannel "invalid scope" (channelId addr) addr, NoInit)])
       srv,
     length (Srv.heap srv)).
Proof. intros H1 H2. unfold getChannel. by rewrite H1, H2. Qed.

(** Two calls in a row hand back the same reference when the scope is known
    or the key is held. *)
Lemma getChannel_twice srv addr srv1 l :
  is_Some (scopes !! Addr.scope addr) ∨ is_Some (Srv.open srv !! channelId addr) →
  getChannel srv addr = (srv1, l) →
  getChannel srv1 addr = (srv1, l).
Proof.
  intros Hk H.
  destruct (Srv.open srv !! channelId addr) as [l0|] eqn:Ho.
  - rewrite (getChannel_hit _ _ _ Ho) in H. simplify_eq. by apply getChannel_hit.
  - destruct Hk as [[sc Hs]|[? ?]]; [|done].
    rewrite (getChannel_create _ _ _ Ho Hs) in H. simplify_eq.
    apply getChannel_hit. simpl. apply lookup_insert_eq.
Qed.

Lemma inv_new connected : RegistryInv (newCentrifugeSrv connected).
Proof. split; simpl; intros; simplify_map_eq; by simplify_list_eq. Qed.

Lemma inv_flags srv srv' :
  Srv.open srv' = Srv.open srv → Srv.heap srv' = Srv.heap srv →
  RegistryInv srv → RegistryInv srv'.
Proof. intros Ho Hh [I1 I2 I3 I4]. split; rewrite ?Ho, ?Hh; done. Qed.

(** A channel changed in place, its identity kept and liveness respected. *)
Lemma inv_store srv l c t c' t' :
  RegistryInv srv →
  Srv.heap srv !! l = Some (c, t) →
  Channel.id c' = Channel.id c →
  Channel.addr c' = Channel.addr c →
  Channel.shutdownCallback c' = Channel.shutdownCallback c →
  (terminal (Channel.state c) = false → terminal (Channel.state c') = false) →
  (terminal (Channel.state c') = false →
   terminal (Channel.state c) = false ∧ Channel.stopped c' = false) →
  RegistryInv (store l c' t' srv).
Proof.
  intros [I1 I2 I3 I4] Hl Hid Haddr Hcb Hlive Hback. split.
  - intros k l' Hk. rewrite open_store in Hk.
    destruct (I1 _ _ Hk) as (c0 & t0 & H0 & Hid0 & Hterm0).
    destruct (decide (l = l')) as [<-|Hne].
    + rewrite Hl in H0. simplify_eq. exists c', t'.
      rewrite (heap_store_eq _ _ _ _ _ _ Hl). auto.
    + exists c0, t0. rewrite heap_store_ne by done. auto.
  - intros l' c0 t0 H0 Hterm. destruct (decide (l = l')) as [<-|Hne].
    + rewrite (heap_store_eq _ _ _ _ _ _ Hl) in H0. simplify_eq.
      destruct (Hback Hterm) as [Hc Hs]. destruct (I2 _ _ _ Hl Hc) as [_ Hc2].
      split; [done|]. by rewrite Hcb, Hid.
    + rewrite heap_store_ne in H0 by done. eauto.
  - intros l' c0 t0 k H0 Hk. destruct (decide (l = l')) as [<-|Hne].
    + rewrite (heap_store_eq _ _ _ _ _ _ Hl) in H0. simplify_eq.
      rewrite Hcb in Hk. rewrite Hid. eauto.
    + rewrite heap_store_ne in H0 by done. eauto.
  - intros l' c0 t0 H0. destruct (decide (l = l')) as [<-|Hne].
    + rewrite (heap_store_eq _ _ _ _ _ _ Hl) in H0. simplify_eq.
      rewrite Hid, Haddr. eauto.
    + rewrite heap_store_ne in H0 by done. eauto.
Qed.

(** A channel brought to a terminal state, its key deleted from the map. *)
Lemma inv_teardown srv l c t c' t' :
  RegistryInv srv →
  Srv.heap srv !! l = Some (c, t) →
  Channel.id c' = Channel.id c →
  Channel.addr c' = Channel.addr c →
  Channel.shutdownCallback c' = Channel.shutdownCallback c →
  terminal (Channel.state c') = true →
  RegistryInv
    (Srv.set_open (delete (Channel.id c) (Srv.open srv)) (store l c' t' srv)).
Proof.
  intros [I1 I2 I3 I4] Hl Hid Haddr Hcb Hterm. split; simpl.
  - intros k l' Hk. apply lookup_delete_Some in Hk as [Hne Hk].
    destruct (I1 _ _ Hk) as (c0 & t0 & H0 & Hid0 & Hterm0).
    destruct (decide (l = l')) as [<-|Hne'].
    + rewrite Hl in H0. by simplify_eq.
    + exists c0, t0. rewrite list_lookup_insert_ne by done. auto.
  - intros l' c0 t0 H0 Hterm0. destruct (decide (l = l')) as [<-|Hne].
    + rewrite list_lookup_insert_eq in H0 by (by eapply lookup_lt_Some).
      simplify_eq. congruence.
    + rewrite list_lookup_insert_ne in H0 by done. eauto.
  - intros l' c0 t0 k H0 Hk. destruct (decide (l = l')) as [<-|Hne].
    + rewrite list_lookup_insert_eq in H0 by (by eapply lookup_lt_Some).
      simplify_eq. rewrite Hcb in Hk. rewrite Hid. eauto.
    + rewrite list_lookup_insert_ne in H0 by done. eauto.
  - intros l' c0 t0 H0. destruct (decide (l = l')) as [<-|Hne].
    + rewrite list_lookup_insert_eq in H0 by (by eapply lookup_lt_Some).
      simplify_eq. rewrite Hid, Haddr. eauto.
    + rewrite list_lookup_insert_ne in H0 by done. eauto.
Qed.

Lemma inv_getChannel srv addr :
  RegistryInv srv → RegistryInv (getChannel srv addr).1.
Proof.
  intros Hinv. destruct (Srv.open srv !! channelId addr) as [l|] eqn:Ho.
  { by rewrite (getChannel_hit _ _ _ Ho). }
  destruct Hinv as [I1 I2 I3 I4].
  assert (Hold : ∀ l x, Srv.heap srv !! l = Some x →
                        ∀ y, (Srv.heap srv ++ [y]) !! l = Some x).
  { intros l x H y. by apply lookup_app_l_Some. }
  assert (Hsnoc : ∀ l x y, (Srv.heap srv ++ [y]) !! l = Some x →
                  Srv.heap srv !! l = Some x ∨ (l = length (Srv.heap srv) ∧ x = y)).
  { intros l x y H. apply lookup_snoc_Some in H as [[_ H]|[-> ->]]; auto. }
  destruct (scopes !! Addr.scope addr) as [sc|] eqn:Hs.
  - rewrite (getChannel_create _ _ _ Ho Hs). split; simpl.
    + intros k l Hk. apply lookup_insert_Some in Hk as [[<- <-]|[Hne Hk]].
      * eexists _, _. rewrite lookup_app_r, Nat.sub_diag by done. simpl. eauto.
      * destruct (I1 _ _ Hk) as (c & t & H & ? & ?). exists c, t. eauto.
    + intros l c t H Hterm. apply Hsnoc in H as [H|[-> H]]; [eauto|]. by simplify_eq.
    + intros l c t k H Hk. apply Hsnoc in H as [H|[-> H]]; [eauto|].
      simplify_eq. simpl in Hk. by simplify_eq.
    + intros l c t H. apply Hsnoc in H as [H|[-> H]]; [eauto|]. by simplify_eq.
  - rewrite (getChannel_error _ _ Ho Hs). split; simpl.
    + intros k l Hk. destruct (I1 _ _ Hk) as (c & t & H & ? & ?). exists c, t. eauto.
    + intros l c t H Hterm. apply Hsnoc in H as [H|[-> H]]; [eauto|]. by simplify_eq.
    + intros l c t k H Hk. apply Hsnoc in H as [H|[-> H]]; [eauto|]. by simplify_eq.
    + intros l c t H. apply Hsnoc in H as [H|[-> H]]; [eauto|]. by simplify_eq.
Qed.

Lemma endStream_facts c c' fired :
  endStream c = (c', fired) →
  Channel.id c' = Channel.id c ∧ Channel.addr c' = Channel.addr c
  ∧ Channel.state c' = Channel.state c ∧ Channel.error c' = Channel.error c
  ∧ Channel.shutdownCallback c' = Channel.shutdownCallback c
  ∧ Channel.stream c' = Channel.stream c
  ∧ Channel.stopped c' = true
  ∧ fired = negb (Channel.stopped c).
Proof.
  unfold endStream. destruct (Channel.stopped c) eqn:Hs; intros; simplify_eq; simpl; auto 10.
Qed.

Lemma send_facts ev c :
  Channel.id (Channel.send ev c) = Channel.id c
  ∧ Channel.addr (Channel.send ev c) = Channel.addr c
  ∧ Channel.state (Channel.send ev c) = Channel.state c
  ∧ Channel.error (Channel.send ev c) = Channel.error c
  ∧ Channel.shutdownCallback (Channel.send ev c) = Channel.shutdownCallback c
  ∧ Channel.subscription (Channel.send ev c) = Channel.subscription c
  ∧ Channel.stopped (Channel.send ev c) = Channel.stopped c
  ∧ Channel.stream (Channel.send ev c) =
      (if Channel.stopped c then Channel.stream c else Channel.stream c ++ [ev]).
Proof. unfold Channel.send. destruct (Channel.stopped c) eqn:Hs; simpl; auto 10. Qed.

Lemma shutdownWithError_facts err c c' fired :
  shutdownWithError err c = (c', fired) →
  Channel.id c' = Channel.id c ∧ Channel.addr c' = Channel.addr c
  ∧ Channel.state c' = Channel.state c ∧ Channel.error c' = Some err
  ∧ Channel.shutdownCallback c' = Channel.shutdownCallback c
  ∧ Channel.stream c' =
      (if Channel.stopped c then Channel.stream c
       else Channel.stream c ++ [StatusEvent (Channel.state c) (Some err) None])
  ∧ Channel.stopped c' = true
  ∧ fired = negb (Channel.stopped c).
Proof.
  unfold shutdownWithError, Channel.sendStatus. intros H.
  apply endStream_facts in H as (? & ? & ? & ? & ? & ? & ? & ?).
  pose proof (send_facts
    (StatusEvent (Channel.state (Channel.set_error (Some err) c))
       (Channel.error (Channel.set_error (Some err) c)) None)
    (Channel.set_error (Some err) c)) as (? & ? & ? & ? & ? & ? & ? & ?).
  simpl in *. repeat split; congruence.
Qed.

Lemma subscribe_facts out c c' t :
  subscribe out c = (c', t) →
  Channel.id c' = Channel.id c ∧ Channel.addr c' = Channel.addr c
  ∧ Channel.state c' = Channel.state c ∧ Channel.error c' = Channel.error c
  ∧ Channel.shutdownCallback c' = Channel.shutdownCallback c
  ∧ Channel.stream c' = Channel.stream c
  ∧ Channel.stopped c' = Channel.stopped c
  ∧ (Channel.subscription c' = Channel.subscription c ∨ t = Fulfilled).
Proof. destruct out; simpl; intros; simplify_eq; simpl; auto 10. Qed.

Lemma initChannel_facts srv c support out c' t :
  initChannel srv c support out = (c', t) →
  Channel.id c' = Channel.id c ∧ Channel.addr c' = Channel.addr c
  ∧ Channel.state c' = Channel.state c ∧ Channel.error c' = Channel.error c
  ∧ Channel.shutdownCallback c' = Channel.shutdownCallback c
  ∧ Channel.stream c' = Channel.stream c
  ∧ Channel.stopped c' = Channel.stopped c
  ∧ (Channel.subscription c' = Channel.subscription c ∨ t = Fulfilled).
Proof.
  unfold initChannel. destruct support as [sup|]; [|intros; simplify_eq; auto 10].
  destruct (getChannelConfig sup _); [|intros; simplify_eq; auto 10].
  destruct (negb (Srv.isConnected srv)); [intros; simplify_eq; simpl; auto 10|].
  intros H. apply subscribe_facts in H. simpl in H. done.
Qed.

Lemma onSubscribe_facts c :
  Channel.id (onSubscribe c) = Channel.id c
  ∧ Channel.addr (onSubscribe c) = Channel.addr c
  ∧ Channel.shutdownCallback (onSubscribe c) = Channel.shutdownCallback c
  ∧ Channel.subscription (onSubscribe c) = Channel.subscription c
  ∧ Channel.stopped (onSubscribe c) = Channel.stopped c
  ∧ terminal (Channel.state (onSubscribe c)) = terminal (Channel.state c)
  ∧ Channel.state (onSubscribe c) =
      (if terminal (Channel.state c) then Channel.state c else Connected).
Proof.
  unfold onSubscribe, Channel.sendStatus, Channel.send.
  destruct (terminal (Channel.state c)) eqn:Ht; [rewrite Ht; auto 10|].
  simpl. destruct (Channel.stopped c) eqn:Hs; simpl; auto 10.
Qed.

Lemma onUnsubscribe_facts c :
  Channel.id (onUnsubscribe c) = Channel.id c
  ∧ Channel.addr (onUnsubscribe c) = Channel.addr c
  ∧ Channel.shutdownCallback (onUnsubscribe c) = Channel.shutdownCallback c
  ∧ Channel.subscription (onUnsubscribe c) = Channel.subscription c
  ∧ Channel.stopped (onUnsubscribe c) = Channel.stopped c
  ∧ terminal (Channel.state (onUnsubscribe c)) = terminal (Channel.state c)
  ∧ Channel.state (onUnsubscribe c) =
      (match Channel.state c with Connected => Disconnected | s => s end).
Proof.
  unfold onUnsubscribe, Channel.sendStatus, Channel.send.
  destruct (Channel.state c) eqn:Ht; simpl; rewrite ?Ht; auto 10.
  destruct (Channel.stopped c) eqn:Hs; simpl; auto 10.
Qed.

Lemma onPublish_facts msg c :
  Channel.id (onPublish msg c) = Channel.id c
  ∧ Channel.addr (onPublish msg c) = Channel.addr c
  ∧ Channel.shutdownCallback (onPublish msg c) = Channel.shutdownCallback c
  ∧ Channel.subscription (onPublish msg c) = Channel.subscription c
  ∧ Channel.stopped (onPublish msg c) = Channel.stopped c
  ∧ Channel.state (onPublish msg c) = Channel.state c.
Proof.
  unfold onPublish, Channel.send.
  destruct (Channel.state c) eqn:Ht; simpl; rewrite ?Ht; auto 10.
  destruct (Msg.schema msg); simpl; destruct (Channel.stopped c) eqn:Hs; simpl; auto 10.
Qed.

Lemma disconnect_facts c c' fired :
  disconnect c = (c', fired) →
  Channel.id c' = Channel.id c ∧ Channel.addr c' = Channel.addr c
  ∧ Channel.shutdownCallback c' = Channel.shutdownCallback c
  ∧ terminal (Channel.state c') = true
  ∧ Channel.state c' =
      (if terminal (Channel.state c) then Channel.state c else Shutdown)
  ∧ (terminal (Channel.state c) = true → c' = c ∧ fired = false)
  ∧ (terminal (Channel.state c) = false → fired = negb (Channel.stopped c)).
Proof.
  unfold disconnect. destruct (terminal (Channel.state c)) eqn:Ht.
  - intros; simplify_eq. rewrite Ht. repeat split; done.
  - intros H. apply endStream_facts in H as (? & ? & Hs & ? & ? & ? & ? & ?).
    simpl in *. rewrite Hs. repeat split; try done.
Qed.

Ltac live_store Hinv Hl :=
  eapply (inv_store _ _ _ _ _ _ Hinv Hl);
  repeat match goal with
         | H : Channel.state _ = Channel.state _ |- _ => rewrite H; clear H
         | H : Channel.stopped _ = Channel.stopped _ |- _ => rewrite H; clear H
         | H : terminal _ = terminal _ |- _ => rewrite H; clear H
         end;
  try done;
  let Hn := fresh in
  intros Hn; split; [done|]; by eapply (inv_live _ Hinv _ _ _ Hl).

Lemma inv_step srv ev srv' :
  RegistryInv srv → step srv ev = Some srv' → RegistryInv srv'.
Proof.
  intros Hinv Hstep. destruct ev as [addr|l sup out|l out|l| | |l|l|l msg|l]; simpl in Hstep.
  - simplify_eq. by apply inv_getChannel.
  - destruct (Srv.heap srv !! l) as [[c []]|] eqn:Hl; try done.
    destruct (initChannel srv c sup out) as [c' t'] eqn:Hi. simplify_eq.
    apply initChannel_facts in Hi as (? & ? & Hs & ? & ? & ? & Hst & ?).
    live_store Hinv Hl.
  - destruct (Srv.heap srv !! l) as [[c []]|] eqn:Hl; try done.
    destruct (Srv.blockerResolved srv); [|done].
    destruct (subscribe out c) as [c' t'] eqn:Hi. simplify_eq.
    apply subscribe_facts in Hi as (? & ? & Hs & ? & ? & ? & Hst & ?).
    live_store Hinv Hl.
  - destruct (Srv.heap srv !! l) as [[c []]|] eqn:Hl; try done. simplify_eq.
    unfold catchInit.
    destruct (shutdownWithError err (Channel.set_state Invalid c)) as [c' fired] eqn:Hs.
    apply shutdownWithError_facts in Hs as (Hid & Haddr & Hst & ? & Hcb & ? & ? & ?).
    simpl in *.
    assert (Ho : delete (Channel.id c) (Srv.open (fire fired c' (store l c' Caught srv)))
                 = delete (Channel.id c) (Srv.open srv)).
    { rewrite open_fire, open_store. destruct fired; [|done].
      rewrite Hcb. destruct (Channel.shutdownCallback c) as [k|] eqn:Hk; [|done].
      rewrite (inv_cb _ Hinv _ _ _ _ Hl Hk).
      apply delete_delete_eq. }
    eapply (inv_flags
              (Srv.set_open (delete (Channel.id c) (Srv.open srv)) (store l c' Caught srv))).
    + simpl. by rewrite Ho.
    + simpl. by rewrite heap_fire.
    + apply (inv_teardown srv l c (Rejected err) c' Caught); auto. by rewrite Hst.
  - simplify_eq. by apply (inv_flags srv).
  - simplify_eq. by apply (inv_flags srv).
  - destruct (Srv.heap srv !! l) as [[c t]|] eqn:Hl; [|done].
    destruct (Channel.subscription c); [|done]. simplify_eq.
    pose proof (onSubscribe_facts c) as (? & ? & ? & ? & Hst & Ht & ?).
    live_store Hinv Hl.
  - destruct (Srv.heap srv !! l) as [[c t]|] eqn:Hl; [|done].
    destruct (Channel.subscription c); [|done]. simplify_eq.
    pose proof (onUnsubscribe_facts c) as (? & ? & ? & ? & Hst & Ht & ?).
    live_store Hinv Hl.
  - destruct (Srv.heap srv !! l) as [[c t]|] eqn:Hl; [|done].
    destruct (Channel.subscription c); [|done]. simplify_eq.
    pose proof (onPublish_facts msg c) as (? & ? & ? & ? & Hst & Ht).
    live_store Hinv Hl.
  - destruct (Srv.heap srv !! l) as [[c t]|] eqn:Hl; [|done].
    destruct (disconnect c) as [c' fired] eqn:Hd. simplify_eq.
    apply disconnect_facts in Hd as (Hid & Haddr & Hcb & Hterm & Hst & Hold & Hnew).
    destruct (terminal (Channel.state c)) eqn:Ht.
    + destruct (Hold eq_refl) as [-> ->]. simpl.
      apply (inv_store _ _ _ _ _ _ Hinv Hl); auto. congruence.
    + destruct (inv_live _ Hinv _ _ _ Hl Ht) as [Hns Hk].
      rewrite (Hnew eq_refl), Hns. simpl.
      unfold runShutdownCallback. rewrite Hcb, Hk.
      by apply (inv_teardown srv l c t c' t).
Qed.

Lemma inv_run evs : ∀ srv srv',
  RegistryInv srv → run srv evs = Some srv' → RegistryInv srv'.
Proof.
  induction evs as [|ev evs IH]; simpl; intros srv srv' Hinv Hrun.
  - by simplify_eq.
  - destruct (step srv ev) as [srv1|] eqn:Hs; [|done].
    eapply IH; [|done]. by eapply inv_step.
Qed.

(** ** One channel along the events *)

Lemma heap_getChannel srv addr l x :
  Srv.heap srv !! l = Some x → Srv.heap (getChannel srv addr).1 !! l = Some x.
Proof.
  intros H. unfold getChannel.
  destruct (Srv.open srv !! channelId addr); [done|].
  destruct (scopes !! Addr.scope addr); simpl; by apply lookup_app_l_Some.
Qed.

Lemma step_at srv ev srv' l c t :
  step srv ev = Some srv' →
  Srv.heap srv !! l = Some (c, t) →
  ∃ c' t', Srv.heap srv' !! l = Some (c', t') ∧ Evolves srv l ev c t c' t'.
Proof.
  intros Hstep Hl.
  assert (Hkeep : ∀ l0 c0 t0 c1 t1, Srv.heap srv !! l0 = Some (c0, t0) →
            (l0 = l → Evolves srv l ev c t c1 t1) →
            ∃ c' t', Srv.heap (store l0 c1 t1 srv) !! l = Some (c', t')
                     ∧ Evolves srv l ev c t c' t').
  { intros l0 c0 t0 c1 t1 H0 He. destruct (decide (l0 = l)) as [->|Hne].
    - exists c1, t1. rewrite (heap_store_eq _ _ _ _ _ _ H0). auto.
    - exists c, t. rewrite heap_store_ne by done. split; [done|constructor]. }
  destruct ev as [addr|l0 sup out|l0 out|l0| | |l0|l0|l0 msg|l0]; simpl in Hstep.
  - simplify_eq. exists c, t. split; [by apply heap_getChannel|constructor].
  - destruct (Srv.heap srv !! l0) as [[c0 []]|] eqn:H0; try done.
    destruct (initChannel srv c0 sup out) as [c1 t1] eqn:Hi. simplify_eq.
    eapply Hkeep; [done|]. intros ->. rewrite Hl in H0. simplify_eq.
    change c1 with (c1, t1).1. change t1 with (c1, t1).2 at 2. rewrite <- Hi.
    by econstructor.
  - destruct (Srv.heap srv !! l0) as [[c0 []]|] eqn:H0; try done.
    destruct (Srv.blockerResolved srv) eqn:Hb; [|done].
    destruct (subscribe out c0) as [c1 t1] eqn:Hi. simplify_eq.
    eapply Hkeep; [done|]. intros ->. rewrite Hl in H0. simplify_eq.
    change c1 with (c1, t1).1. change t1 with (c1, t1).2 at 2. rewrite <- Hi.
    by econstructor.
  - destruct (Srv.heap srv !! l0) as [[c0 []]|] eqn:H0; try done. simplify_eq.
    unfold catchInit.
    destruct (shutdownWithError err (Channel.set_state Invalid c0)) as [c1 fired] eqn:Hs.
    simpl. rewrite heap_fire.
    eapply Hkeep; [done|]. intros ->. rewrite Hl in H0. simplify_eq.
    change c1 with (c1, fired).1. rewrite <- Hs. by econstructor.
  - simplify_eq. exists c, t. split; [done|constructor].
  - simplify_eq. exists c, t. split; [done|constructor].
  - destruct (Srv.heap srv !! l0) as [[c0 t0]|] eqn:H0; [|done].
    destruct (Channel.subscription c0) eqn:Hsub; [|done]. simplify_eq.
    eapply Hkeep; [done|]. intros ->. rewrite Hl in H0. simplify_eq. by constructor.
  - destruct (Srv.heap srv !! l0) as [[c0 t0]|] eqn:H0; [|done].
    destruct (Channel.subscription c0) eqn:Hsub; [|done]. simplify_eq.
    eapply Hkeep; [done|]. intros ->. rewrite Hl in H0. simplify_eq. by constructor.
  - destruct (Srv.heap srv !! l0) as [[c0 t0]|] eqn:H0; [|done].
    destruct (Channel.subscription c0) eqn:Hsub; [|done]. simplify_eq.
    eapply Hkeep; [done|]. intros ->. rewrite Hl in H0. simplify_eq. by constructor.
  - destruct (Srv.heap srv !! l0) as [[c0 t0]|] eqn:H0; [|done].
    destruct (disconnect c0) as [c1 fired] eqn:Hd. simplify_eq.
    rewrite heap_fire.
    eapply Hkeep; [done|]. intros ->. rewrite Hl in H0. simplify_eq.
    change c1 with (c1, fired).1. rewrite <- Hd. by constructor.
Qed.

Ltac use_unsub :=
  match goal with
  | Hk : ?t ≠ Fulfilled → _ ∧ _ |- _ =>
      let H := fresh in
      assert (H : t ≠ Fulfilled) by done;
      destruct (Hk H) as [? ?]; clear Hk
  end.

Lemma evolves_facts srv l ev c t c' t' :
  Evolves srv l ev c t c' t' →
  Channel.id c' = Channel.id c
  ∧ Channel.addr c' = Channel.addr c
  ∧ (Channel.state c = Invalid → Channel.state c' = Invalid)
  ∧ (Channel.stopped c = true →
     Channel.stopped c' = true ∧ Channel.stream c' = Channel.stream c)
  ∧ (t = Caught → t' = Caught)
  ∧ (t = Fulfilled → t' = Fulfilled)
  ∧ (∀ err, t = Rejected err → t' = Rejected err ∨ t' = Caught)
  ∧ (unsubscribed c t → unsubscribed c' t').
Proof.
  unfold unsubscribed.
  destruct 1 as [ | sc sup out -> -> | out -> -> Hb | err -> -> | -> Hsub | -> Hsub
                | msg -> Hsub | -> ].
  - auto 10.
  - destruct (initChannel srv c sup out) as [c1 t1] eqn:Hi.
    pose proof Hi as Hf.
    apply initChannel_facts in Hf as (? & ? & Hs & ? & ? & Hstr & Hst & Hsub).
    simpl. rewrite Hs, Hst, Hstr. repeat split; try done; use_unsub; [|done].
    destruct Hsub as [->|]; done.
  - destruct (subscribe out c) as [c1 t1] eqn:Hi.
    pose proof Hi as Hf.
    apply subscribe_facts in Hf as (? & ? & Hs & ? & ? & Hstr & Hst & Hsub).
    simpl. rewrite Hs, Hst, Hstr. repeat split; try done; use_unsub; [|done].
    destruct Hsub as [->|]; done.
  - destruct (shutdownWithError err (Channel.set_state Invalid c)) as [c1 fired] eqn:Hi.
    pose proof Hi as Hf.
    apply shutdownWithError_facts in Hf as (? & ? & Hs & ? & ? & Hstr & Hst & ?).
    simpl in *. rewrite Hs. repeat split; try done.
    + match goal with Hc : Channel.stopped c = true |- _ => by rewrite Hstr, Hc end.
    + intros ? [= <-]. auto.
    + use_unsub. revert Hi.
      unfold shutdownWithError, Channel.sendStatus, Channel.send, endStream. simpl.
      destruct (Channel.stopped c) eqn:Hstop; simpl; rewrite ?Hstop; simpl;
        intros [= <- <-]; simpl; done.
  - pose proof (onSubscribe_facts c) as (? & ? & ? & Hs & Hst & Ht & Hstate).
    repeat split; try done; try congruence; try (use_unsub; congruence); auto.
    + intros Hi. rewrite Hstate, Hi. done.
    + unfold onSubscribe, Channel.sendStatus, Channel.send.
      destruct (terminal (Channel.state c)); [done|]. simpl.
      match goal with Hc : Channel.stopped c = true |- _ => by rewrite Hc end.
  - pose proof (onUnsubscribe_facts c) as (? & ? & ? & Hs & Hst & Ht & Hstate).
    repeat split; try done; try congruence; try (use_unsub; congruence); auto.
    + intros Hi. rewrite Hstate, Hi. done.
    + unfold onUnsubscribe, Channel.sendStatus, Channel.send.
      destruct (Channel.state c); try done. simpl.
      match goal with Hc : Channel.stopped c = true |- _ => by rewrite Hc end.
  - pose proof (onPublish_facts msg c) as (? & ? & ? & Hs & Hst & Hstate).
    repeat split; try done; try congruence; try (use_unsub; congruence); auto.
    unfold onPublish, Channel.send.
    destruct (Channel.state c); try done.
    match goal with Hc : Channel.stopped c = true |- _ =>
      destruct (Msg.schema msg); simpl; by rewrite Hc end.
  - destruct (disconnect c) as [c1 fired] eqn:Hd. pose proof Hd as Hf.
    apply disconnect_facts in Hf as (? & ? & ? & Hterm & Hstate & Hold & Hnew).
    simpl. revert Hd. unfold disconnect, endStream.
    destruct (terminal (Channel.state c)) eqn:Ht.
    + intros [= <- <-]. repeat split; try done; try (use_unsub; done); auto.
    + simpl. destruct (Channel.stopped c) eqn:Hstop; intros [= <- <-]; simpl;
        repeat split; try done; try congruence; try (use_unsub; done); auto.
      all: intros Hi; rewrite Hi in Ht; done.
Qed.

Lemma Later_refl c t : Later c t c t.
Proof. unfold Later. auto 10. Qed.

Lemma Later_trans c1 t1 c2 t2 c3 t3 :
  Later c1 t1 c2 t2 → Later c2 t2 c3 t3 → Later c1 t1 c3 t3.
Proof.
  intros (A1 & A2 & A3 & A4 & A5 & A6 & A7 & A8) (B1 & B2 & B3 & B4 & B5 & B6 & B7 & B8).
  unfold Later. split; [congruence|]. split; [congruence|]. split; [auto|].
  split; [|split; [auto|split; [auto|split; [|auto]]]].
  - intros Hs. destruct (A4 Hs) as [H1 H2]. destruct (B4 H1) as [H3 H4].
    split; congruence.
  - intros err Hr. destruct (A7 _ Hr) as [H1|H1]; [eauto|]. right. auto.
Qed.

Lemma run_at evs : ∀ srv srv' l c t,
  run srv evs = Some srv' →
  Srv.heap srv !! l = Some (c, t) →
  ∃ c' t', Srv.heap srv' !! l = Some (c', t') ∧ Later c t c' t'.
Proof.
  induction evs as [|ev evs IH]; simpl; intros srv srv' l c t Hrun Hl.
  - simplify_eq. exists c, t. split; [done|apply Later_refl].
  - destruct (step srv ev) as [srv1|] eqn:Hs; [|done].
    destruct (step_at _ _ _ _ _ _ Hs Hl) as (c1 & t1 & Hl1 & He).
    destruct (IH _ _ _ _ _ Hrun Hl1) as (c2 & t2 & Hl2 & Hlater).
    exists c2, t2. split; [done|].
    eapply Later_trans; [|done]. by eapply evolves_facts.
Qed.



Lemma reachable_inv srv : reachable srv → RegistryInv srv.
Proof. intros (connected & evs & Hrun). eapply inv_run; [apply inv_new|done]. Qed.





(** * Properties of the specification *)

(** ** C6: a new channel is Pending and initialized in the background *)

(** C6: [getChannel] returns at once.  For an address of a known scope whose
    key the registry does not hold, the reference returned is that of a new
    channel, registered under the key, in the Pending state, with no
    configuration, no subscription and no event sent; its initialization is
    suspended at the scope's resolver.  The configuration is looked up and
    the subscription issued by a later event, after the return. *)
Theorem getChannel_returns_pending srv addr scope :
  scopes !! Addr.scope addr = Some scope →
  Srv.open srv !! channelId addr = None →
  ∃ c,
    (getChannel srv addr).2 = length (Srv.heap srv)
    ∧ Srv.heap (getChannel srv addr).1 = Srv.heap srv ++ [(c, AwaitSupport scope)]
    ∧ Srv.open (getChannel srv addr).1 !! channelId addr = Some (getChannel srv addr).2
    ∧ Channel.state c = Pending ∧ Channel.error c = None
    ∧ Channel.config c = None ∧ Channel.subscription c = false
    ∧ Channel.stream c = [] ∧ Channel.stopped c = false
    ∧ ∀ support config,
        getChannelConfig support (Addr.path addr) = Some config →
        ∃ srv' c',
          step (getChannel srv addr).1
            (ESupport (getChannel srv addr).2 (Some support) SubOk) = Some srv'
          ∧ Srv.heap srv' !! (getChannel srv addr).2
            = Some (c', if Srv.isConnected srv then Fulfilled else AwaitBlocker)
          ∧ Channel.config c' = Some config
          ∧ Channel.subscription c' = Srv.isConnected srv
          ∧ Channel.state c' = Pending.
Proof.
  intros Hs Ho. rewrite (getChannel_create _ _ _ Ho Hs). simpl.
  eexists. split; [done|]. split; [done|]. split; [apply lookup_insert_eq|].
  simpl. repeat (split; [done|]).
  intros support config Hc.
  rewrite lookup_app_r, Nat.sub_diag by done. simpl.
  rewrite Hc. destruct (Srv.isConnected srv) eqn:Hconn; simpl.
  - eexists _, _. split; [done|]. simpl.
    rewrite list_lookup_insert_eq by (rewrite length_app; simpl; lia). done.
  - eexists _, _. split; [done|]. simpl.
    rewrite list_lookup_insert_eq by (rewrite length_app; simpl; lia). done.
Qed.

Lemma getChannel_returns_pending_witness :
  ∃ c,
    (getChannel (newCentrifugeSrv false) dashboard).2 = 0
    ∧ Srv.heap (getChannel (newCentrifugeSrv false) dashboard).1 = [(c, AwaitSupport Grafana)]
    ∧ Channel.state c = Pending.
Proof.
  destruct (getChannel_returns_pending (newCentrifugeSrv false) dashboard Grafana)
    as (c & H1 & H2 & _ & H3 & _).
  - vm_compute. reflexivity.
  - vm_compute. reflexivity.
  - exists c. split; [exact H1|]. split; [exact H2|exact H3].
Defined.

(** ** C3: an unknown scope *)




(** ** C5: a channel in a terminal state is replaced *)

(** C5: in every state the service reaches, a channel in the Shutdown or
    Invalid state is not held by the registry under its address, and
    [getChannel] on that address returns another reference; when the scope
    of the address is known, the channel returned is not in a terminal
    state, and when the key is free it is a new Pending channel whose
    initialization starts afresh. *)
Theorem terminal_channel_is_replaced srv l c t :
  reachable srv →
  Srv.heap srv !! l = Some (c, t) →
  terminal (Channel.state c) = true →
  Srv.open srv !! channelId (Channel.addr c) ≠ Some l
  ∧ (getChannel srv (Channel.addr c)).2 ≠ l
  ∧ ∀ scope, scopes !! Addr.scope (Channel.addr c) = Some scope →
      ∃ c' t',
        Srv.heap (getChannel srv (Channel.addr c)).1
          !! (getChannel srv (Channel.addr c)).2 = Some (c', t')
        ∧ terminal (Channel.state c') = false
        ∧ (Srv.open srv !! channelId (Channel.addr c) = None →
           (getChannel srv (Channel.addr c)).2 = length (Srv.heap srv)
           ∧ Channel.state c' = Pending ∧ t' = AwaitSupport scope
           ∧ Channel.config c' = None ∧ Channel.subscription c' = false).
Proof.
  intros Hr Hl Hterm. pose proof (reachable_inv _ Hr) as Hinv.
  assert (Hno : Srv.open srv !! channelId (Channel.addr c) ≠ Some l).
  { intros Hk. destruct (inv_open _ Hinv _ _ Hk) as (c0 & t0 & H0 & _ & Hlive).
    rewrite Hl in H0. simplify_eq. congruence. }
  split; [done|].
  destruct (Srv.open srv !! channelId (Channel.addr c)) as [l'|] eqn:Ho.
  - rewrite (getChannel_hit _ _ _ Ho). simpl. split; [congruence|].
    intros scope _. destruct (inv_open _ Hinv _ _ Ho) as (c0 & t0 & H0 & _ & Hlive).
    exists c0, t0. split; [done|]. split; [done|]. done.
  - split.
    + unfold getChannel. rewrite Ho. apply lookup_lt_Some in Hl.
      destruct (scopes !! _); simpl; lia.
    + intros scope Hs. rewrite (getChannel_create _ _ _ Ho Hs). simpl.
      eexists _, _. rewrite lookup_app_r, Nat.sub_diag by done. simpl.
      split; [done|]. split; [done|]. done.
Qed.

Lemma terminal_channel_is_replaced_witness :
  ∃ srv c t,
    run (newCentrifugeSrv false) [EGetChannel dashboard; EShutdown 0] = Some srv
    ∧ Srv.heap srv !! 0 = Some (c, t)
    ∧ Channel.state c = Shutdown
    ∧ (getChannel srv (Channel.addr c)).2 ≠ 0.
Proof.
  eexists _, _, _. split; [vm_compute; reflexivity|].
  split; [vm_compute; reflexivity|]. split; [reflexivity|].
  refine (proj1 (proj2 (terminal_channel_is_replaced _ 0 _ _ _ _ _))).
  - exists false, [EGetChannel dashboard; EShutdown 0]. vm_compute. reflexivity.
  - vm_compute. reflexivity.
  - vm_compute. reflexivity.
Defined.

(** ** C1: one channel per address *)

(** C1 does not hold of the code.  A channel [A] is obtained and shut down
    while its initialization is pending; the same address is then handed a
    new channel [B].  When the initialization of [A] fails, its [catch]
    handler deletes the key, which by now is that of [B]: [B] is still
    Pending and not torn down, yet the next [getChannel] on the address
    creates a third channel. *)
Theorem stale_catch_unregisters_live_channel :
  let '(s1, A) := getChannel (newCentrifugeSrv false) dashboard in
  ∃ s2, step s1 (EShutdown A) = Some s2
  ∧ let '(s3, B) := getChannel s2 dashboard in
    ∃ s4 s5,
      step s3 (ESupport A None SubOk) = Some s4
      ∧ step s4 (ECatch A) = Some s5
      ∧ Srv.open s3 !! channelId dashboard = Some B
      ∧ stateAt s5 B = Some Pending
      ∧ (Channel.stopped <$> channelAt s5 B) = Some false
      ∧ Srv.open s5 !! channelId dashboard = None
      ∧ (getChannel s5 dashboard).2 ≠ B
      ∧ stateAt (getChannel s5 dashboard).1 (getChannel s5 dashboard).2 = Some Pending.
Proof.
  vm_compute. eexists. split; [reflexivity|].
  eexists _, _. repeat (split; [reflexivity|]). split; [discriminate|reflexivity].
Qed.

(** ** C10: [getChannelInfo] *)

(** C10: [getChannelInfo] rejects exactly when the scope is unknown or the
    scope's resolver has no Support for the namespace; with a known scope
    and a Support it resolves with what the Support answers for the path,
    which is [undefined] when the Support has no configuration for it. *)
Theorem getChannelInfo_rejects_only_without_support getChannelSupport addr :
  ((∃ err, getChannelInfo getChannelSupport addr = RejectedWith err)
   ↔ (scopes !! Addr.scope addr = None
      ∨ ∃ scope, scopes !! Addr.scope addr = Some scope
                 ∧ getChannelSupport scope (Addr.namespace addr) = None))
  ∧ (∀ scope support,
       scopes !! Addr.scope addr = Some scope →
       getChannelSupport scope (Addr.namespace addr) = Some support →
       getChannelInfo getChannelSupport addr
         = Resolved (getChannelConfig support (Addr.path addr))
       ∧ (getChannelConfig support (Addr.path addr) = None →
          getChannelInfo getChannelSupport addr = Resolved None)).
Proof.
  unfold getChannelInfo. split.
  - destruct (scopes !! Addr.scope addr) as [scope|] eqn:Hs.
    + destruct (getChannelSupport scope (Addr.namespace addr)) as [sup|] eqn:Hg.
      * split; [intros [err H]; done|].
        intros [H|(sc & H1 & H2)]; [done|]. simplify_eq.
      * split; [|by eauto]. intros _. right. eauto.
    + split; [by auto|by eauto].
  - intros scope support Hs Hg. rewrite Hs, Hg. split; [done|]. by intros ->.
Qed.

Lemma getChannelInfo_rejects_only_without_support_witness :
  getChannelInfo (λ _ _, Some no_config) dashboard = Resolved None.
Proof.
  refine (proj2 (proj2 (getChannelInfo_rejects_only_without_support
                          (λ _ _, Some no_config) dashboard) Grafana no_config _ _) _).
  - vm_compute. reflexivity.
  - reflexivity.
  - reflexivity.
Defined.

(** ** C2: a failed initialization *)







(** ** C7: the connection blocker *)

Lemma step_flags srv ev srv' :
  ev ≠ EConnect →
  step srv ev = Some srv' →
  Srv.blockerResolved srv' = Srv.blockerResolved srv
  ∧ (Srv.isConnected srv = false → Srv.isConnected srv' = false).
Proof.
  intros Hne Hstep.
  destruct ev as [addr|l0 sup out|l0 out|l0| | |l0|l0|l0 msg|l0]; simpl in Hstep;
    try done.
  - simplify_eq. unfold getChannel.
    destruct (Srv.open srv !! channelId addr); [done|].
    destruct (scopes !! Addr.scope addr); simpl; auto.
  - destruct (Srv.heap srv !! l0) as [[c0 []]|]; try done.
    destruct (initChannel srv c0 sup out). simplify_eq. unfold store; simpl; auto.
  - destruct (Srv.heap srv !! l0) as [[c0 []]|]; try done.
    destruct (Srv.blockerResolved srv) eqn:Hb; [|done].
    destruct (subscribe out c0). simplify_eq. unfold store; simpl; auto.
  - destruct (Srv.heap srv !! l0) as [[c0 []]|]; try done. simplify_eq.
    unfold catchInit.
    destruct (shutdownWithError err (Channel.set_state Invalid c0)) as [c1 fired].
    simpl. unfold fire, runShutdownCallback.
    destruct fired, (Channel.shutdownCallback c1); unfold store; simpl; auto.
  - simplify_eq. unfold store; simpl; auto.
  - destruct (Srv.heap srv !! l0) as [[c0 t0]|]; [|done].
    destruct (Channel.subscription c0); [|done]. simplify_eq. unfold store; simpl; auto.
  - destruct (Srv.heap srv !! l0) as [[c0 t0]|]; [|done].
    destruct (Channel.subscription c0); [|done]. simplify_eq. unfold store; simpl; auto.
  - destruct (Srv.heap srv !! l0) as [[c0 t0]|]; [|done].
    destruct (Channel.subscription c0); [|done]. simplify_eq. unfold store; simpl; auto.
  - destruct (Srv.heap srv !! l0) as [[c0 t0]|]; [|done].
    destruct (disconnect c0) as [c1 fired]. simplify_eq.
    unfold fire, runShutdownCallback.
    destruct fired, (Channel.shutdownCallback c1); unfold store; simpl; auto.
Qed.

Lemma gated_step srv l ev srv' c t :
  gated srv l → ev ≠ EConnect →
  step srv ev = Some srv' →
  Srv.heap srv !! l = Some (c, t) →
  gated srv' l
  ∧ ∃ c' t', Srv.heap srv' !! l = Some (c', t')
             ∧ (ev ≠ EShutdown l → ev ≠ ECatch l →
                Channel.state c = Pending → Channel.state c' = Pending).
Proof.
  intros (Hconn & Hblock & c0 & t0 & Hl0 & Hsub & Ht & Hst) Hne Hstep Hl.
  rewrite Hl in Hl0. injection Hl0 as <- <-.
  destruct (step_flags _ _ _ Hne Hstep) as [Hb Hc].
  destruct (step_at _ _ _ _ _ _ Hstep Hl) as (c' & t' & Hl' & He).
  assert (Ht' : t' ≠ Fulfilled).
  { destruct He as [ | sc sup out -> -> | out -> -> Hb' | err -> -> | -> Hs | -> Hs
                   | msg -> Hs | -> ]; try done; try congruence.
    unfold initChannel. destruct sup as [sup|]; [|done].
    destruct (getChannelConfig sup _); [|done]. rewrite Hconn. done. }
  pose proof (evolves_facts _ _ _ _ _ _ _ He) as (_ & _ & _ & _ & _ & _ & _ & Hk).
  destruct (Hk (λ _, conj Hsub Hst) Ht') as [Hsub' Hst'].
  split.
  - split; [by apply Hc|]. split; [congruence|]. by exists c', t'.
  - exists c', t'. split; [done|]. intros Hn1 Hn2 Hp.
    destruct He as [ | sc sup out -> -> | out -> -> Hb' | err -> -> | -> Hs | -> Hs
                   | msg -> Hs | -> ]; try done; try congruence.
    destruct (initChannel srv c sup out) as [c1 t1] eqn:Hi.
    apply initChannel_facts in Hi as (_ & _ & Hs1 & _). simpl. congruence.
Qed.

Lemma gated_run evs : ∀ srv srv' l c t,
  gated srv l → EConnect ∉ evs →
  run srv evs = Some srv' →
  Srv.heap srv !! l = Some (c, t) →
  gated srv' l
  ∧ ∃ c' t', Srv.heap srv' !! l = Some (c', t')
             ∧ (EShutdown l ∉ evs → ECatch l ∉ evs →
                Channel.state c = Pending → Channel.state c' = Pending).
Proof.
  induction evs as [|ev evs IH]; simpl; intros srv srv' l c t Hg Hne Hrun Hl.
  - simplify_eq. split; [done|]. exists c, t. auto.
  - destruct (step srv ev) as [srv1|] eqn:Hs; [|done].
    apply not_elem_of_cons in Hne as [Hne1 Hne2].
    destruct (gated_step _ _ _ _ _ _ Hg (not_eq_sym Hne1) Hs Hl)
      as (Hg1 & c1 & t1 & Hl1 & Hp1).
    destruct (IH _ _ _ _ _ Hg1 Hne2 Hrun Hl1) as (Hg2 & c2 & t2 & Hl2 & Hp2).
    split; [done|]. exists c2, t2. split; [done|].
    intros Hn1 Hn2 Hp.
    apply not_elem_of_cons in Hn1 as [Hn1 Hn1'].
    apply not_elem_of_cons in Hn2 as [Hn2 Hn2'].
    apply Hp2; [done|done|]. apply Hp1; [congruence|congruence|done].
Qed.

(** C7: [getChannel] is called for an address of a known scope, free in the
    registry, while the transport has not connected yet.  As long as no
    connect event occurs, whatever else happens, no subscription is issued
    for the channel, its initialization does not finish and cannot pass the
    connection blocker, and the channel is not Connected; it is Pending
    unless it was shut down or its initialization failed.  Once its
    initialization waits at the blocker, a connect event lets it resume: it
    is still Pending after the connect event, the subscription is then
    issued, and the transport's acknowledgement makes the channel Connected.
    The initialization does reach the blocker when the Support has a
    configuration for the path. *)
Theorem subscribe_waits_for_connection srv addr scope :
  scopes !! Addr.scope addr = Some scope →
  Srv.open srv !! channelId addr = None →
  Srv.isConnected srv = false →
  Srv.blockerResolved srv = false →
  (∀ evs srv2,
     run (getChannel srv addr).1 evs = Some srv2 →
     EConnect ∉ evs →
     ∃ c t,
       Srv.heap srv2 !! (getChannel srv addr).2 = Some (c, t)
       ∧ Channel.subscription c = false ∧ t ≠ Fulfilled
       ∧ Channel.state c ≠ Connected
       ∧ (∀ out, step srv2 (EGate (getChannel srv addr).2 out) = None)
       ∧ (EShutdown (getChannel srv addr).2 ∉ evs →
          ECatch (getChannel srv addr).2 ∉ evs →
          Channel.state c = Pending)
       ∧ (t = AwaitBlocker → Channel.state c = Pending →
          ∃ s3 s4 s5 c4,
            step srv2 EConnect = Some s3
            ∧ stateAt s3 (getChannel srv addr).2 = Some Pending
            ∧ step s3 (EGate (getChannel srv addr).2 SubOk) = Some s4
            ∧ Srv.heap s4 !! (getChannel srv addr).2 = Some (c4, Fulfilled)
            ∧ Channel.subscription c4 = true
            ∧ Channel.state c4 = Pending
            ∧ step s4 (ESubscribed (getChannel srv addr).2) = Some s5
            ∧ stateAt s5 (getChannel srv addr).2 = Some Connected))
  ∧ (∀ support config out,
       getChannelConfig support (Addr.path addr) = Some config →
       ∃ s2,
         step (getChannel srv addr).1
           (ESupport (getChannel srv addr).2 (Some support) out) = Some s2
         ∧ taskAt s2 (getChannel srv addr).2 = Some AwaitBlocker
         ∧ stateAt s2 (getChannel srv addr).2 = Some Pending).
Proof.
  intros Hs Ho Hconn Hblock. rewrite (getChannel_create _ _ _ Ho Hs). cbn [fst snd].
  set (l := length (Srv.heap srv)).
  set (c0 := Channel.set_shutdownCallback (Some (channelId addr))
               (Channel.new (channelId addr) addr)).
  set (srv1 := Srv.set_open _ _).
  assert (Hl1 : Srv.heap srv1 !! l = Some (c0, AwaitSupport scope)).
  { unfold srv1, l. simpl. rewrite lookup_app_r, Nat.sub_diag by done. done. }
  assert (Hg1 : gated srv1 l).
  { split; [done|]. split; [done|]. exists c0, (AwaitSupport scope). by repeat split. }
  split.
  - intros evs srv2 Hrun Hne.
    destruct (gated_run _ _ _ _ _ _ Hg1 Hne Hrun Hl1)
      as ((Hc2 & Hb2 & c & t & Hl & Hsub & Ht & Hst) & c' & t' & Hl' & Hp).
    rewrite Hl in Hl'. injection Hl' as <- <-.
    exists c, t. repeat (split; [done|]). split; [|split].
    + intros out. simpl. rewrite Hl, Hb2. by destruct t.
    + intros Hn1 Hn2. by apply Hp.
    + intros -> Hpend.
      set (s3 := onConnect srv2).
      assert (Hl3 : Srv.heap s3 !! l = Some (c, AwaitBlocker)) by done.
      set (c4 := Channel.set_subscription true c).
      set (s4 := store l c4 Fulfilled s3).
      assert (Hl4 : Srv.heap s4 !! l = Some (c4, Fulfilled)).
      { by apply heap_store_eq with c AwaitBlocker. }
      exists s3, s4, (store l (onSubscribe c4) Fulfilled s4), c4.
      split; [done|].
      split; [by unfold stateAt, channelAt; rewrite Hl3; simpl; rewrite Hpend|].
      split; [by unfold step; rewrite Hl3|].
      split; [done|]. split; [done|]. split; [done|].
      split; [by unfold step; rewrite Hl4|].
      unfold stateAt, channelAt. rewrite (heap_store_eq _ _ _ _ _ _ Hl4). simpl.
      pose proof (onSubscribe_facts c4) as (_ & _ & _ & _ & _ & _ & Hstate).
      rewrite Hstate. simpl. by rewrite Hpend.
  - intros support config out Hc. unfold step. rewrite Hl1.
    unfold initChannel. simpl. rewrite Hc, Hconn. simpl.
    eexists. split; [done|]. unfold taskAt, stateAt, channelAt.
    rewrite (heap_store_eq _ _ _ _ _ _ Hl1). done.
Qed.

Lemma subscribe_waits_for_connection_witness :
  ∃ s2,
    step (getChannel (newCentrifugeSrv false) dashboard).1
      (ESupport (getChannel (newCentrifugeSrv false) dashboard).2 (Some with_config) SubOk)
    = Some s2
    ∧ taskAt s2 (getChannel (newCentrifugeSrv false) dashboard).2 = Some AwaitBlocker
    ∧ stateAt s2 (getChannel (newCentrifugeSrv false) dashboard).2 = Some Pending.
Proof.
  refine (proj2 (subscribe_waits_for_connection (newCentrifugeSrv false) dashboard
                   Grafana _ _ _ _) with_config _ SubOk _).
  - vm_compute. reflexivity.
  - vm_compute. reflexivity.
  - reflexivity.
  - reflexivity.
  - reflexivity.
Defined.

(** ** C4: the frame buffer *)

Section DataStreamProperties.

Context `{DataImports}.

Lemma evict_app K (X Y : list Row) : evict K (evict K X ++ Y) = evict K (X ++ Y).
Proof.
  destruct K as [k|]; [|done]. simpl.
  rewrite <- (drop_app_le X Y) by lia.
  rewrite drop_drop. f_equal. rewrite length_drop, !length_app. lia.
Qed.

Lemma evict_idemp K (X : list Row) : evict K (evict K X) = evict K X.
Proof. pose proof (evict_app K X []) as E. by rewrite !app_nil_r in E. Qed.

Lemma length_evict (k : nat) (X : list Row) :
  length (evict (Some k) X) = Nat.min (length X) k.
Proof. simpl. rewrite length_drop. lia. Qed.

Lemma evict_bounded (k : nat) (X : list Row) : length X ≤ k → evict (Some k) X = X.
Proof. intros Hle. simpl. by replace (length X - k) with 0 by lia. Qed.

Lemma foldl_pushRow K (new rows : list Row) :
  evict K rows = rows → foldl (pushRow K) rows new = evict K (rows ++ new).
Proof.
  intros Hb. induction new as [|r new IH] using rev_ind.
  - simpl. by rewrite app_nil_r, Hb.
  - rewrite foldl_snoc, IH. unfold pushRow. by rewrite evict_app, app_assoc.
Qed.

(** A message without a schema pushed into a buffer whose rows fit its
    capacity: the schema is kept, the rows are the most recent ones. *)
Lemma push_data_only msg d :
  Msg.schema msg = None →
  fits d →
  push msg d
  = SDF.mk (SDF.fields d) (evict (SDF.maxLength d) (SDF.rows d ++ Msg.data msg))
      (SDF.maxLength d).
Proof. intros Hs Hb. unfold push. rewrite Hs. simpl. by rewrite foldl_pushRow. Qed.

(** Every buffer the constructor and [push] build fits its capacity. *)
Lemma push_fits msg d : fits d → fits (push msg d).
Proof.
  unfold fits, push. intros Hb. simpl.
  destruct (Msg.schema msg) as [fs|]; simpl.
  - rewrite foldl_pushRow by apply evict_idemp. apply evict_idemp.
  - rewrite foldl_pushRow by done. apply evict_idemp.
Qed.

Lemma newStreamingDataFrame_fits msg buffer : fits (newStreamingDataFrame msg buffer).
Proof. apply push_fits. unfold fits. simpl. by destruct buffer. Qed.

Lemma process_data options msg perfLast perfOk s :
  Sub.data (process options msg perfLast perfOk s)
  = Some (match Sub.data s with
          | None => newStreamingDataFrame msg (Options.buffer options)
          | Some d => push msg d
          end)
  ∧ Sub.closed (process options msg perfLast perfOk s) = Sub.closed s.
Proof. unfold process. by destruct (bool_decide _ || perfOk). Qed.

Lemma observe_message options s msg perfLast perfOk :
  Sub.closed s = false →
  observe options s (SNext (MessageEvent msg) perfLast perfOk)
  = process options msg perfLast perfOk s.
Proof. intros Hc. unfold observe. by rewrite Hc. Qed.

(** C4: a frame buffer with a maximum length [K], whose rows fit it, is fed
    messages that carry rows and no schema, through the observer of a data
    stream.  Whatever the throttle lets through, the buffer keeps its schema
    and its maximum length, and holds the rows it held followed by the rows
    pushed, in order, less the oldest ones in excess of [K]: once [K] rows
    or more have come, exactly the most recent [K]. *)
Theorem frame_buffer_keeps_most_recent options (K : nat) notes : ∀ s d,
  Sub.closed s = false →
  Sub.data s = Some d →
  SDF.maxLength d = Some K →
  length (SDF.rows d) ≤ K →
  Forall (λ n, dataOnly n = true) notes →
  ∃ d',
    Sub.data (observeAll options s notes) = Some d'
    ∧ SDF.fields d' = SDF.fields d
    ∧ SDF.maxLength d' = Some K
    ∧ SDF.rows d'
      = drop (length (SDF.rows d ++ (notes ≫= noteRows)) - K)
          (SDF.rows d ++ (notes ≫= noteRows))
    ∧ (K ≤ length (SDF.rows d ++ (notes ≫= noteRows)) → length (SDF.rows d') = K).
Proof.
  induction notes as [|n notes IH]; intros s d Hc Hd HK Hlen Hall.
  - exists d. simpl. rewrite app_nil_r.
    replace (length (SDF.rows d) - K) with 0 by lia. simpl.
    repeat (split; [done|]). lia.
  - apply Forall_cons in Hall as [Hn Hall].
    destruct n as [[msg|]pl ok| |]; try done. simpl in Hn.
    destruct (Msg.schema msg) eqn:Hschema; [done|].
    change (observeAll options s (SNext (MessageEvent msg) pl ok :: notes))
      with (observeAll options (observe options s (SNext (MessageEvent msg) pl ok)) notes).
    change ((SNext (MessageEvent msg) pl ok :: notes) ≫= noteRows)
      with (Msg.data msg ++ (notes ≫= noteRows)).
    rewrite (observe_message _ _ _ _ _ Hc).
    destruct (process_data options msg pl ok s) as [Hd1 Hc1]. rewrite Hd in Hd1.
    assert (Hfit : fits d) by (unfold fits; rewrite HK; by apply evict_bounded).
    rewrite (push_data_only _ _ Hschema Hfit), HK in Hd1.
    edestruct (IH (process options msg pl ok s)) as (d' & H1 & H2 & H3 & H4 & H5);
      [congruence|exact Hd1|done| |done|].
    { cbn [SDF.rows]. rewrite length_evict. lia. }
    exists d'. split; [done|]. split; [done|]. split; [done|].
    cbn [SDF.rows] in H4, H5. rewrite app_assoc.
    set (A := SDF.rows d ++ Msg.data msg) in *. set (N := notes ≫= noteRows) in *.
    change (SDF.rows d' = evict (Some K) (evict (Some K) A ++ N)) in H4.
    rewrite evict_app in H4. split; [exact H4|].
    intros Hle. rewrite H4, length_evict. lia.
Qed.

(** ** C8: an error of the channel's stream *)

Lemma observe_closed options s n : Sub.closed s = true → observe options s n = s.
Proof. intros Hc. unfold observe. by rewrite Hc. Qed.

Lemma observeAll_closed options notes s :
  Sub.closed s = true → observeAll options s notes = s.
Proof.
  induction notes as [|n notes IH]; [done|]. intros Hc.
  change (observeAll options s (n :: notes))
    with (observeAll options (observe options s n) notes).
  rewrite observe_closed by done. by apply IH.
Qed.

Lemma subscriberNext_open r out :
  Complete ∉ out → subscriberNext r out = out ++ [Next r].
Proof. intros Hn. unfold subscriberNext. by rewrite bool_decide_eq_false_2. Qed.

Lemma subscriberNext_keeps r out : Complete ∉ out → Complete ∉ subscriberNext r out.
Proof.
  intros Hn. rewrite subscriberNext_open by done.
  rewrite elem_of_app, list_elem_of_singleton. intros [?|?]; done.
Qed.

Lemma process_open options msg perfLast perfOk s :
  Complete ∉ Sub.out s → Complete ∉ Sub.out (process options msg perfLast perfOk s).
Proof.
  intros Hn. unfold process. destruct (bool_decide _ || perfOk); simpl; [|done].
  by apply subscriberNext_keeps.
Qed.

(** As long as the subscription is open the subscriber has not been told
    [complete]. *)
Lemma observe_open options s n :
  (Sub.closed s = false → Complete ∉ Sub.out s) →
  Sub.closed (observe options s n) = false →
  Complete ∉ Sub.out (observe options s n).
Proof.
  intros Hw. destruct (Sub.closed s) eqn:Hc.
  { rewrite observe_closed by done. by rewrite Hc. }
  unfold observe. rewrite Hc.
  specialize (Hw eq_refl). destruct n as [evt pl ok|err|]; simpl; try done.
  intros _. destruct evt as [msg|st e msg]; simpl.
  - by apply process_open.
  - destruct (truthy e); simpl; [by apply subscriberNext_keeps|].
    destruct st, msg; try done; by apply process_open.
Qed.

Lemma observeAll_open options notes : ∀ s,
  (Sub.closed s = false → Complete ∉ Sub.out s) →
  Sub.closed (observeAll options s notes) = false →
  Complete ∉ Sub.out (observeAll options s notes).
Proof.
  induction notes as [|n notes IH]; intros s Hw; [done|].
  change (observeAll options s (n :: notes))
    with (observeAll options (observe options s n) notes).
  apply IH. by apply observe_open.
Qed.


(** ** C9: an invalid address *)

(** C9: for options whose address is not a valid channel address,
    [getDataStream] is the observable of one response: the Error state, the
    error made of the invalid address, and as data the initial frame alone
    when there is one, nothing otherwise.  Subscribing to it delivers that
    response, completes, and leaves the service and the stream counter as
    they were: no channel is looked up or created. *)
Theorem invalid_address_yields_error options srv counter perfLast :
  isValidLiveChannelAddress (Options.addr options) = false →
  getDataStream options
  = ObsOf (Response.mk Error
             (match Options.frame options with Some frame => [Some frame] | None => [] end)
             None
             (Some (toDataQueryError
                      ("invalid channel address: " +:+ stringify (Options.addr options)))))
  ∧ subscribeDataStream srv counter perfLast (getDataStream options)
    = (srv, counter,
       Emitted
         [Next (Response.mk Error
                  (match Options.frame options with
                   | Some frame => [Some frame]
                   | None => []
                   end)
                  None
                  (Some (toDataQueryError
                           ("invalid channel address: "
                            +:+ stringify (Options.addr options)))));
          Complete]).
Proof. intros Hv. unfold getDataStream. rewrite Hv. simpl. done. Qed.

End DataStreamProperties.

(** ** C4, C8 and C9 on an instance *)

Lemma frame_buffer_keeps_most_recent_witness :
  ∃ d',
    Sub.data
      (observeAll (H := exampleImports) tail2
         (Sub.mk (Some (SDF.mk [] [row 1; row 2] (Some 2))) None Streaming "tail" 0 false [])
         [SNext (MessageEvent (Msg.mk None [row 3])) 0 false]) = Some d'
    ∧ SDF.rows d' = [row 2; row 3].
Proof.
  destruct (frame_buffer_keeps_most_recent (H := exampleImports) tail2 2
              [SNext (MessageEvent (Msg.mk None [row 3])) 0 false]
              (Sub.mk (Some (SDF.mk [] [row 1; row 2] (Some 2))) None Streaming "tail" 0
                 false [])
              (SDF.mk [] [row 1; row 2] (Some 2)))
    as (d' & H1 & _ & _ & H4 & _).
  - reflexivity.
  - reflexivity.
  - reflexivity.
  - simpl. lia.
  - repeat constructor.
  - exists d'. split; [exact H1|exact H4].
Defined.


Lemma invalid_address_yields_error_witness :
  subscribeDataStream (H := exampleImports) (newCentrifugeSrv false) 0 0
    (getDataStream (H := exampleImports) no_path)
  = (newCentrifugeSrv false, 0,
     Emitted
       [Next (Response.mk Error [Some (Frame.mk [] [row 1])] None
                (Some {| message := "invalid channel address: grafana/dashboard/" |}));
        Complete]).
Proof.
  refine (proj2 (invalid_address_yields_error (H := exampleImports) no_path
                   (newCentrifugeSrv false) 0 0 _)).
  reflexivity.
Defined.

(** The scenario of C7 run from the construction of the service. *)
Example connect_then_subscribe :
  (srv ← run (newCentrifugeSrv false)
           [EGetChannel dashboard; ESupport 0 (Some with_config) SubOk];
   Some (stateAt srv 0, taskAt srv 0, step srv (EGate 0 SubOk)))
  = Some (Some Pending, Some AwaitBlocker, None)
  ∧ (srv ← run (newCentrifugeSrv false)
             [EGetChannel dashboard; ESupport 0 (Some with_config) SubOk;
              EConnect; EGate 0 SubOk; ESubscribed 0];
     Some (stateAt srv 0, taskAt srv 0))
    = Some (Some Connected, Some Fulfilled).
Proof. split; vm_compute; reflexivity. Qed.

(** * Further properties of the code *)

(** ** The live URL *)

Lemma stripPrefix_Some p : ∀ s r, stripPrefix p s = Some r ↔ s = p +:+ r.
Proof.
  induction p as [|a p IH]; intros s r; simpl.
  - split; [by intros [= ->]|by intros ->].
  - destruct s as [|b s]; [split; done|].
    destruct (Ascii.eqb_spec a b) as [<-|Hne].
    + rewrite IH. split; [by intros ->|by intros [= ->]].
    + split; [done|]. intros [= -> _]. done.
Qed.

(** X1: the live URL is the application URL followed by [live/ws] with its
    scheme changed: [https://] becomes [wss://] and [http://] becomes
    [ws://], the rest is kept; any other text is left as it is.  In no case
    does the live URL start with [http://] or [https://]. *)
Theorem liveUrl_scheme appUrl :
  (∀ rest, appUrl = "https://" +:+ rest →
           liveUrl appUrl = "wss://" +:+ rest +:+ "live/ws")
  ∧ (∀ rest, appUrl = "http://" +:+ rest →
             liveUrl appUrl = "ws://" +:+ rest +:+ "live/ws")
  ∧ ((∀ rest, appUrl +:+ "live/ws" ≠ "https://" +:+ rest) →
     (∀ rest, appUrl +:+ "live/ws" ≠ "http://" +:+ rest) →
     liveUrl appUrl = appUrl +:+ "live/ws")
  ∧ (∀ rest, liveUrl appUrl ≠ "http://" +:+ rest)
  ∧ (∀ rest, liveUrl appUrl ≠ "https://" +:+ rest).
Proof.
  split; [by intros rest ->|]. split; [by intros rest ->|].
  unfold liveUrl.
  destruct (stripPrefix "https://" (appUrl +:+ "live/ws")) as [r1|] eqn:H1.
  { apply stripPrefix_Some in H1. split; [intros Hn; by destruct (Hn r1)|]. split; done. }
  destruct (stripPrefix "http://" (appUrl +:+ "live/ws")) as [r2|] eqn:H2.
  { apply stripPrefix_Some in H2. split; [intros _ Hn; by destruct (Hn r2)|]. split; done. }
  split; [done|]. split; intros rest Hr; apply stripPrefix_Some in Hr; congruence.
Qed.

Lemma liveUrl_scheme_witness :
  liveUrl "https://play.grafana.org/" = "wss://play.grafana.org/live/ws".
Proof.
  refine (proj1 (liveUrl_scheme "https://play.grafana.org/") "play.grafana.org/" _).
  reflexivity.
Defined.

(** ** The registry key *)

Lemma append_slash_inj x : ∀ y r r',
  hasSlash x = false → hasSlash y = false →
  x +:+ "/" +:+ r = y +:+ "/" +:+ r' → x = y ∧ r = r'.
Proof.
  induction x as [|a x IH]; intros [|b y] r r'; simpl; intros Hx Hy Heq.
  - by simplify_eq.
  - injection Heq as <- _. by rewrite Ascii.eqb_refl in Hy.
  - injection Heq as -> _. by rewrite Ascii.eqb_refl in Hx.
  - injection Heq as -> Heq.
    apply orb_false_iff in Hx as [_ Hx]. apply orb_false_iff in Hy as [_ Hy].
    destruct (IH _ _ _ Hx Hy Heq) as [-> ->]. done.
Qed.

(** X2: the registry key tells the address when the scope and the namespace
    hold no [/]: two such addresses with the same key are the same address,
    whatever their paths hold. *)
Theorem channelId_inj a b :
  hasSlash (Addr.scope a) = false → hasSlash (Addr.namespace a) = false →
  hasSlash (Addr.scope b) = false → hasSlash (Addr.namespace b) = false →
  channelId a = channelId b → a = b.
Proof.
  destruct a as [s1 n1 p1], b as [s2 n2 p2]. unfold channelId. simpl.
  intros Hs1 Hn1 Hs2 Hn2 Heq.
  apply append_slash_inj in Heq as [-> Heq]; [|done|done].
  apply append_slash_inj in Heq as [-> ->]; done.
Qed.

Lemma channelId_inj_witness :
  channelId nested = channelId (Addr.mk "grafana" "a" "b/c")
  ∧ nested = Addr.mk "grafana" "a" "b/c".
Proof.
  split; [reflexivity|].
  apply (channelId_inj nested (Addr.mk "grafana" "a" "b/c")); reflexivity.
Defined.

(** ** The connection flags *)

Lemma run_invariant (P : CentrifugeSrv → Prop) :
  (∀ srv ev srv', P srv → step srv ev = Some srv' → P srv') →
  ∀ evs srv srv', P srv → run srv evs = Some srv' → P srv'.
Proof.
  intros Hstep. induction evs as [|ev evs IH]; simpl; intros srv srv' HP Hrun.
  - by simplify_eq.
  - destruct (step srv ev) as [srv1|] eqn:Hs; [|done]. eauto.
Qed.

(** What an event does to the connection flags. *)
Lemma step_conn srv ev srv' :
  step srv ev = Some srv' →
  (ev = EConnect ∧ Srv.isConnected srv' = true ∧ Srv.blockerResolved srv' = true
   ∧ Srv.connectionState srv' = true)
  ∨ (ev = EDisconnect ∧ Srv.isConnected srv' = false
     ∧ Srv.blockerResolved srv' = Srv.blockerResolved srv
     ∧ Srv.connectionState srv' = false)
  ∨ (Srv.isConnected srv' = Srv.isConnected srv
     ∧ Srv.blockerResolved srv' = Srv.blockerResolved srv
     ∧ Srv.connectionState srv' = Srv.connectionState srv).
Proof.
  intros Hstep.
  destruct ev as [addr|l0 sup out|l0 out|l0| | |l0|l0|l0 msg|l0]; simpl in Hstep.
  - simplify_eq. right. right. unfold getChannel.
    destruct (Srv.open srv !! channelId addr); [done|].
    destruct (scopes !! Addr.scope addr); simpl; auto.
  - destruct (Srv.heap srv !! l0) as [[c0 []]|]; try done.
    destruct (initChannel srv c0 sup out). simplify_eq. right. right. done.
  - destruct (Srv.heap srv !! l0) as [[c0 []]|]; try done.
    destruct (Srv.blockerResolved srv) eqn:Hb; [|done].
    destruct (subscribe out c0). simplify_eq. right. right. done.
  - destruct (Srv.heap srv !! l0) as [[c0 []]|]; try done. simplify_eq.
    right. right. unfold catchInit.
    destruct (shutdownWithError err (Channel.set_state Invalid c0)) as [c1 fired].
    simpl. unfold fire, runShutdownCallback.
    destruct fired, (Channel.shutdownCallback c1); done.
  - simplify_eq. left. done.
  - simplify_eq. right. left. done.
  - destruct (Srv.heap srv !! l0) as [[c0 t0]|]; [|done].
    destruct (Channel.subscription c0); [|done]. simplify_eq. right. right. done.
  - destruct (Srv.heap srv !! l0) as [[c0 t0]|]; [|done].
    destruct (Channel.subscription c0); [|done]. simplify_eq. right. right. done.
  - destruct (Srv.heap srv !! l0) as [[c0 t0]|]; [|done].
    destruct (Channel.subscription c0); [|done]. simplify_eq. right. right. done.
  - destruct (Srv.heap srv !! l0) as [[c0 t0]|]; [|done].
    destruct (disconnect c0) as [c1 fired]. simplify_eq. right. right.
    unfold fire, runShutdownCallback.
    destruct fired, (Channel.shutdownCallback c1); done.
Qed.

(** X3: in every state the service reaches, the connection state it
    broadcasts is the transport's, and the connection blocker is resolved
    whenever the transport is connected.  The blocker is one-shot: once
    resolved it stays resolved whatever happens, a disconnect included. *)
Theorem connection_state_mirrors_transport srv :
  reachable srv →
  Srv.connectionState srv = Srv.isConnected srv
  ∧ (Srv.isConnected srv = true → Srv.blockerResolved srv = true)
  ∧ ∀ evs srv',
      run srv evs = Some srv' →
      Srv.blockerResolved srv = true → Srv.blockerResolved srv' = true.
Proof.
  intros (connected & evs & Hrun).
  assert (Hinv : Srv.connectionState srv = Srv.isConnected srv
                 ∧ (Srv.isConnected srv = true → Srv.blockerResolved srv = true)).
  { revert Hrun.
    apply (run_invariant
             (λ s, Srv.connectionState s = Srv.isConnected s
                   ∧ (Srv.isConnected s = true → Srv.blockerResolved s = true)));
      [|by destruct connected].
    intros s ev s' [H1 H2] Hs.
    destruct (step_conn _ _ _ Hs)
      as [(_ & E1 & E2 & E3)|[(_ & E1 & E2 & E3)|(E1 & E2 & E3)]];
      rewrite E1, E2, E3; split; by auto. }
  destruct Hinv as [H1 H2]. split; [done|]. split; [done|].
  intros evs' srv' Hrun' Hb. revert Hrun'.
  apply (run_invariant (λ s, Srv.blockerResolved s = true)); [|done].
  intros s ev s' Hs Hstep.
  destruct (step_conn _ _ _ Hstep)
    as [(_ & _ & E & _)|[(_ & _ & E & _)|(_ & E & _)]]; rewrite E; by auto.
Qed.

Lemma connection_state_mirrors_transport_witness :
  ∃ srv,
    run (newCentrifugeSrv false) [EConnect; EDisconnect] = Some srv
    ∧ Srv.connectionState srv = Srv.isConnected srv
    ∧ Srv.isConnected srv = false ∧ Srv.blockerResolved srv = true.
Proof.
  eexists. split; [reflexivity|]. split; [|split; reflexivity].
  refine (proj1 (connection_state_mirrors_transport _ _)).
  exists false, [EConnect; EDisconnect]. reflexivity.
Defined.

(** X4: after a first connection the blocker is not armed again.  For a
    channel created while the transport is disconnected but has connected
    once, whose Support has a configuration for the path, [initChannel]
    still waits at the blocker, resumes without any connect event and
    issues the subscription while the transport is disconnected. *)
Theorem resolved_blocker_does_not_wait srv addr scope support config out :
  scopes !! Addr.scope addr = Some scope →
  Srv.open srv !! channelId addr = None →
  Srv.isConnected srv = false →
  Srv.blockerResolved srv = true →
  getChannelConfig support (Addr.path addr) = Some config →
  ∃ s2 s3 c3,
    step (getChannel srv addr).1
      (ESupport (getChannel srv addr).2 (Some support) out) = Some s2
    ∧ taskAt s2 (getChannel srv addr).2 = Some AwaitBlocker
    ∧ step s2 (EGate (getChannel srv addr).2 SubOk) = Some s3
    ∧ Srv.heap s3 !! (getChannel srv addr).2 = Some (c3, Fulfilled)
    ∧ Channel.subscription c3 = true
    ∧ Channel.config c3 = Some config
    ∧ Channel.state c3 = Pending
    ∧ Srv.isConnected s3 = false.
Proof.
  intros Hs Ho Hconn Hblock Hc. rewrite (getChannel_create _ _ _ Ho Hs). cbn [fst snd].
  set (l := length (Srv.heap srv)).
  set (c0 := Channel.set_shutdownCallback (Some (channelId addr))
               (Channel.new (channelId addr) addr)).
  set (srv1 := Srv.set_open _ _).
  assert (Hl1 : Srv.heap srv1 !! l = Some (c0, AwaitSupport scope)).
  { unfold srv1, l. simpl. rewrite lookup_app_r, Nat.sub_diag by done. done. }
  set (c2 := Channel.initalize config c0).
  set (s2 := store l c2 AwaitBlocker srv1).
  assert (Hl2 : Srv.heap s2 !! l = Some (c2, AwaitBlocker)).
  { by apply heap_store_eq with c0 (AwaitSupport scope). }
  set (c3 := Channel.set_subscription true c2).
  exists s2, (store l c3 Fulfilled s2), c3.
  split.
  { unfold step. rewrite Hl1. unfold initChannel. simpl. rewrite Hc.
    change (Srv.isConnected srv1) with (Srv.isConnected srv). by rewrite Hconn. }
  split; [by unfold taskAt; rewrite Hl2|].
  split.
  { unfold step. rewrite Hl2.
    change (Srv.blockerResolved s2) with (Srv.blockerResolved srv). by rewrite Hblock. }
  split; [by apply heap_store_eq with c2 AwaitBlocker|]. done.
Qed.

Lemma resolved_blocker_does_not_wait_witness :
  ∃ srv s3 c3,
    run (newCentrifugeSrv false) [EConnect; EDisconnect] = Some srv
    ∧ run (getChannel srv dashboard).1
        [ESupport (getChannel srv dashboard).2 (Some with_config) SubOk;
         EGate (getChannel srv dashboard).2 SubOk] = Some s3
    ∧ Srv.heap s3 !! (getChannel srv dashboard).2 = Some (c3, Fulfilled)
    ∧ Channel.subscription c3 = true
    ∧ Srv.isConnected s3 = false.
Proof.
  eexists. 
  destruct (resolved_blocker_does_not_wait (onDisconnect (onConnect (newCentrifugeSrv false)))
              dashboard Grafana with_config
              {| hasPresence := false; canPublish := false |} SubOk)
    as (s2 & s3 & c3 & H1 & _ & H2 & H3 & H4 & _ & _ & H5).
  - vm_compute. reflexivity.
  - vm_compute. reflexivity.
  - reflexivity.
  - reflexivity.
  - reflexivity.
  - exists s3, c3. split; [reflexivity|]. split.
    + cbn [run]. rewrite H1, H2. reflexivity.
    + split; [exact H3|]. split; [exact H4|exact H5].
Defined.

(** ** What [getChannel] and the events leave alone *)

(** X5: [getChannel] only adds.  Every registry entry and every channel of
    the store is after the call what it was before, and so are the
    connection flags; an entry the call adds is the one of the key of the
    address, for the reference it returns, and the scope is then known. *)
Theorem getChannel_only_adds srv addr :
  (∀ k l, Srv.open srv !! k = Some l → Srv.open (getChannel srv addr).1 !! k = Some l)
  ∧ (∀ l x, Srv.heap srv !! l = Some x → Srv.heap (getChannel srv addr).1 !! l = Some x)
  ∧ (∀ k l, Srv.open (getChannel srv addr).1 !! k = Some l →
            Srv.open srv !! k = Some l
            ∨ (k = channelId addr ∧ l = (getChannel srv addr).2
               ∧ l = length (Srv.heap srv)
               ∧ is_Some (scopes !! Addr.scope addr)))
  ∧ Srv.isConnected (getChannel srv addr).1 = Srv.isConnected srv
  ∧ Srv.blockerResolved (getChannel srv addr).1 = Srv.blockerResolved srv
  ∧ Srv.connectionState (getChannel srv addr).1 = Srv.connectionState srv.
Proof.
  split; [|split; [intros l0 x; apply heap_getChannel|]].
  - intros k l Hk. unfold getChannel.
    destruct (Srv.open srv !! channelId addr) as [l0|] eqn:Ho; [done|].
    destruct (scopes !! Addr.scope addr); simpl; [|done].
    rewrite lookup_insert_ne; [done|]. intros <-. congruence.
  - unfold getChannel.
    destruct (Srv.open srv !! channelId addr) as [l0|] eqn:Ho; [by auto|].
    destruct (scopes !! Addr.scope addr) as [sc|] eqn:Hs; simpl; [|by auto].
    split; [|done]. intros k l Hk.
    apply lookup_insert_Some in Hk as [[<- <-]|[_ Hk]]; [|by auto].
    right. repeat split; eauto.
Qed.

Lemma step_keeps_entry srv ev srv' k l :
  RegistryInv srv →
  step srv ev = Some srv' →
  Srv.open srv !! k = Some l →
  (∀ l0 c0 t0, teardownOf ev = Some l0 → Srv.heap srv !! l0 = Some (c0, t0) →
               Channel.id c0 ≠ k) →
  Srv.open srv' !! k = Some l.
Proof.
  intros Hinv Hstep Hk Hother.
  destruct ev as [addr|l0 sup out|l0 out|l0| | |l0|l0|l0 msg|l0]; simpl in Hstep.
  - simplify_eq. by apply getChannel_only_adds.
  - destruct (Srv.heap srv !! l0) as [[c0 []]|]; try done.
    destruct (initChannel srv c0 sup out). by simplify_eq.
  - destruct (Srv.heap srv !! l0) as [[c0 []]|]; try done.
    destruct (Srv.blockerResolved srv); [|done].
    destruct (subscribe out c0). by simplify_eq.
  - destruct (Srv.heap srv !! l0) as [[c0 []]|] eqn:Hl; try done. simplify_eq.
    specialize (Hother l0 c0 _ eq_refl Hl).
    unfold catchInit.
    destruct (shutdownWithError err (Channel.set_state Invalid c0)) as [c1 fired] eqn:Hs.
    apply shutdownWithError_facts in Hs as (_ & _ & _ & _ & Hcb & _).
    simpl in Hcb. simpl. rewrite lookup_delete_ne by done.
    rewrite open_fire, open_store. destruct fired; [|done].
    rewrite Hcb. destruct (Channel.shutdownCallback c0) as [k1|] eqn:Hk1; [|done].
    rewrite (inv_cb _ Hinv _ _ _ _ Hl Hk1).
    by rewrite lookup_delete_ne.
  - by simplify_eq.
  - by simplify_eq.
  - destruct (Srv.heap srv !! l0) as [[c0 t0]|]; [|done].
    destruct (Channel.subscription c0); [|done]. by simplify_eq.
  - destruct (Srv.heap srv !! l0) as [[c0 t0]|]; [|done].
    destruct (Channel.subscription c0); [|done]. by simplify_eq.
  - destruct (Srv.heap srv !! l0) as [[c0 t0]|]; [|done].
    destruct (Channel.subscription c0); [|done]. by simplify_eq.
  - destruct (Srv.heap srv !! l0) as [[c0 t0]|] eqn:Hl; [|done].
    specialize (Hother l0 c0 _ eq_refl Hl).
    destruct (disconnect c0) as [c1 fired] eqn:Hd. simplify_eq.
    apply disconnect_facts in Hd as (_ & _ & Hcb & _).
    rewrite open_fire, open_store. destruct fired; [|done].
    rewrite Hcb. destruct (Channel.shutdownCallback c0) as [k1|] eqn:Hk1; [|done].
    rewrite (inv_cb _ Hinv _ _ _ _ Hl Hk1).
    by rewrite lookup_delete_ne.
Qed.

Lemma run_keeps_entry evs : ∀ srv srv' k l,
  RegistryInv srv →
  run srv evs = Some srv' →
  Srv.open srv !! k = Some l →
  (∀ l0 c0 t0, (ECatch l0 ∈ evs ∨ EShutdown l0 ∈ evs) →
               Srv.heap srv' !! l0 = Some (c0, t0) → Channel.id c0 ≠ k) →
  Srv.open srv' !! k = Some l.
Proof.
  induction evs as [|ev evs IH]; simpl; intros srv srv' k l Hinv Hrun Hk Hother.
  - by simplify_eq.
  - destruct (step srv ev) as [srv1|] eqn:Hs; [|done].
    apply (IH srv1); [by eapply inv_step|done| |].
    + eapply step_keeps_entry; [done|done|done|].
      intros l0 c0 t0 Htd Hl0.
      destruct (step_at _ _ _ _ _ _ Hs Hl0) as (c1 & t1 & Hl1 & He).
      destruct (run_at _ _ _ _ _ _ Hrun Hl1) as (c2 & t2 & Hl2 & Hid2 & _).
      apply evolves_facts in He as (Hid1 & _).
      rewrite <- Hid1, <- Hid2. apply (Hother l0 c2 t2); [|done].
      destruct ev; simpl in Htd; simplify_eq;
        [left|right]; apply list_elem_of_here.
    + intros l0 c0 t0 Hin. apply Hother.
      destruct Hin; [left|right]; by apply list_elem_of_further.
Qed.

(** X6: the registry keeps its entries.  Once [getChannel] has returned a
    channel for an address, of a known scope or held by the registry, every
    later [getChannel] on the address returns the same reference, whatever
    events occur in between, provided none of them is the teardown (the
    [catch] handler or the explicit shutdown) of a channel with that key. *)
Theorem getChannel_dedupes_until_teardown srv addr evs srv' :
  reachable srv →
  is_Some (scopes !! Addr.scope addr) ∨ is_Some (Srv.open srv !! channelId addr) →
  run (getChannel srv addr).1 evs = Some srv' →
  (∀ l0 c0 t0, (ECatch l0 ∈ evs ∨ EShutdown l0 ∈ evs) →
               Srv.heap srv' !! l0 = Some (c0, t0) →
               Channel.id c0 ≠ channelId addr) →
  getChannel srv' addr = (srv', (getChannel srv addr).2).
Proof.
  intros Hr Hk Hrun Hother. apply getChannel_hit.
  eapply run_keeps_entry; [|done| |done].
  - apply inv_getChannel. by apply reachable_inv.
  - destruct (Srv.open srv !! channelId addr) as [l0|] eqn:Ho.
    + by rewrite (getChannel_hit _ _ _ Ho).
    + destruct Hk as [[sc Hs]|[? ?]]; [|done].
      rewrite (getChannel_create _ _ _ Ho Hs). simpl. apply lookup_insert_eq.
Qed.

Lemma getChannel_dedupes_until_teardown_witness :
  ∃ srv',
    run (getChannel (newCentrifugeSrv false) dashboard).1
      [EGetChannel nested; ESupport 1 None SubOk; ECatch 1; EConnect] = Some srv'
    ∧ getChannel srv' dashboard = (srv', 0).
Proof.
  eexists. split; [vm_compute; reflexivity|].
  apply (getChannel_dedupes_until_teardown (newCentrifugeSrv false) dashboard
           [EGetChannel nested; ESupport 1 None SubOk; ECatch 1; EConnect]).
  - exists false, []. reflexivity.
  - left. vm_compute. eauto.
  - vm_compute. reflexivity.
  - intros l0 c0 t0 Hin Hl0.
    assert (l0 = 1) as ->.
    { destruct Hin as [Hin|Hin];
        repeat (apply elem_of_cons in Hin as [Hin|Hin]; [by simplify_eq|]);
        by apply elem_of_nil in Hin. }
    vm_compute in Hl0. injection Hl0 as <- _. vm_compute. discriminate.
Defined.

(** X7: an event addressed to one channel leaves every other channel of the
    store as it is, and the registry map as well, but for one case: the
    teardown of the channel deletes the channel's own key. *)
Theorem event_touches_one_channel srv ev srv' l0 :
  reachable srv →
  step srv ev = Some srv' →
  targetOf ev = Some l0 →
  (∀ l, l ≠ l0 → Srv.heap srv' !! l = Srv.heap srv !! l)
  ∧ (∀ k, Srv.open srv' !! k = Srv.open srv !! k
          ∨ (teardownOf ev = Some l0 ∧ Srv.open srv' !! k = None
             ∧ ∃ c0 t0, Srv.heap srv !! l0 = Some (c0, t0) ∧ Channel.id c0 = k)).
Proof.
  intros Hr Hstep Htarget. pose proof (reachable_inv _ Hr) as Hinv.
  destruct ev as [addr|l1 sup out|l1 out|l1| | |l1|l1|l1 msg|l1]; simpl in Hstep, Htarget;
    simplify_eq.
  - destruct (Srv.heap srv !! l0) as [[c0 []]|]; try done.
    destruct (initChannel srv c0 sup out). simplify_eq.
    split; [intros l Hne; by apply heap_store_ne|by left].
  - destruct (Srv.heap srv !! l0) as [[c0 []]|]; try done.
    destruct (Srv.blockerResolved srv); [|done].
    destruct (subscribe out c0). simplify_eq.
    split; [intros l Hne; by apply heap_store_ne|by left].
  - destruct (Srv.heap srv !! l0) as [[c0 []]|] eqn:Hl; try done. simplify_eq.
    unfold catchInit.
    destruct (shutdownWithError err (Channel.set_state Invalid c0)) as [c1 fired] eqn:Hs.
    apply shutdownWithError_facts in Hs as (_ & _ & _ & _ & Hcb & _). simpl in Hcb.
    simpl. rewrite heap_fire.
    split; [intros l Hne; by apply heap_store_ne|].
    intros k. rewrite open_fire, open_store.
    destruct (decide (Channel.id c0 = k)) as [<-|Hne].
    + right. split; [done|]. split; [apply lookup_delete_eq|eauto].
    + left. rewrite lookup_delete_ne by done. destruct fired; [|done].
      rewrite Hcb. destruct (Channel.shutdownCallback c0) as [k1|] eqn:Hk1; [|done].
      rewrite (inv_cb _ Hinv _ _ _ _ Hl Hk1). by rewrite lookup_delete_ne.
  - destruct (Srv.heap srv !! l0) as [[c0 t0]|]; [|done].
    destruct (Channel.subscription c0); [|done]. simplify_eq.
    split; [intros l Hne; by apply heap_store_ne|by left].
  - destruct (Srv.heap srv !! l0) as [[c0 t0]|]; [|done].
    destruct (Channel.subscription c0); [|done]. simplify_eq.
    split; [intros l Hne; by apply heap_store_ne|by left].
  - destruct (Srv.heap srv !! l0) as [[c0 t0]|]; [|done].
    destruct (Channel.subscription c0); [|done]. simplify_eq.
    split; [intros l Hne; by apply heap_store_ne|by left].
  - destruct (Srv.heap srv !! l0) as [[c0 t0]|] eqn:Hl; [|done].
    destruct (disconnect c0) as [c1 fired] eqn:Hd. simplify_eq.
    apply disconnect_facts in Hd as (_ & _ & Hcb & _).
    rewrite heap_fire.
    split; [intros l Hne; by apply heap_store_ne|].
    intros k. rewrite open_fire, open_store. destruct fired; [|by left].
    rewrite Hcb. destruct (Channel.shutdownCallback c0) as [k1|] eqn:Hk1; [|by left].
    rewrite (inv_cb _ Hinv _ _ _ _ Hl Hk1).
    destruct (decide (Channel.id c0 = k)) as [<-|Hne].
    + right. split; [done|]. split; [apply lookup_delete_eq|eauto].
    + left. by rewrite lookup_delete_ne.
Qed.

Lemma event_touches_one_channel_witness :
  ∃ srv srv',
    run (newCentrifugeSrv false) [EGetChannel dashboard; EGetChannel nested] = Some srv
    ∧ step srv (EShutdown 0) = Some srv'
    ∧ Srv.heap srv' !! 1 = Srv.heap srv !! 1.
Proof.
  eexists _, _. split; [vm_compute; reflexivity|]. split; [vm_compute; reflexivity|].
  refine (proj1 (event_touches_one_channel _ (EShutdown 0) _ 0 _ _ _) 1 _).
  - exists false, [EGetChannel dashboard; EGetChannel nested]. vm_compute. reflexivity.
  - vm_compute. reflexivity.
  - reflexivity.
  - lia.
Defined.

(** ** The order of the initialization *)

Lemma evolves_staged srv l ev c t c' t' :
  Evolves srv l ev c t c' t' → staged c t → staged c' t'.
Proof.
  destruct 1 as [ | sc sup out -> -> | out -> -> Hb | err -> -> | -> Hsub | -> Hsub
                | msg -> Hsub | -> ]; unfold staged.
  - done.
  - intros [Hc Hs]. unfold initChannel. destruct sup as [sup|]; [|done].
    destruct (getChannelConfig sup _); [|done].
    destruct (negb (Srv.isConnected srv)); simpl; [by eauto|].
    destruct out; simpl; by eauto.
  - intros [Hc Hs]. destruct out; simpl; done.
  - intros Hs. unfold shutdownWithError, endStream, Channel.sendStatus, Channel.send.
    simpl. destruct (Channel.stopped c) eqn:Hst; simpl; rewrite ?Hst; done.
  - unfold onSubscribe, Channel.sendStatus, Channel.send.
    destruct (terminal (Channel.state c)); [done|]. simpl.
    destruct (Channel.stopped c); by destruct t.
  - unfold onUnsubscribe, Channel.sendStatus, Channel.send.
    destruct (Channel.state c); try done. simpl.
    destruct (Channel.stopped c); by destruct t.
  - unfold onPublish, Channel.send.
    destruct (Channel.state c); try done.
    destruct (Msg.schema msg); simpl; destruct (Channel.stopped c); by destruct t.
  - unfold disconnect, endStream.
    destruct (terminal (Channel.state c)); [done|]. simpl.
    destruct (Channel.stopped c); destruct t; simpl; intuition.
Qed.

Lemma step_new_entry srv ev srv' l c t :
  step srv ev = Some srv' →
  Srv.heap srv !! l = None →
  Srv.heap srv' !! l = Some (c, t) →
  staged c t.
Proof.
  intros Hstep Hnone Hl.
  assert (Hst : ∀ l0 c0 t0, Srv.heap (store l0 c0 t0 srv) !! l = Some (c, t) → False).
  { intros l0 c0 t0 H. apply lookup_lt_Some in H. rewrite length_store in H.
    apply lookup_ge_None in Hnone. lia. }
  destruct ev as [addr|l0 sup out|l0 out|l0| | |l0|l0|l0 msg|l0]; simpl in Hstep.
  - simplify_eq. revert Hl. unfold getChannel.
    destruct (Srv.open srv !! channelId addr); [simpl; congruence|].
    destruct (scopes !! Addr.scope addr); simpl; intros Hl;
      apply lookup_snoc_Some in Hl as [[Hlt Hl]|[-> Hl]]; try congruence;
      by simplify_eq.
  - destruct (Srv.heap srv !! l0) as [[c0 []]|]; try done.
    destruct (initChannel srv c0 sup out). simplify_eq. by destruct (Hst _ _ _ Hl).
  - destruct (Srv.heap srv !! l0) as [[c0 []]|]; try done.
    destruct (Srv.blockerResolved srv); [|done].
    destruct (subscribe out c0). simplify_eq. by destruct (Hst _ _ _ Hl).
  - destruct (Srv.heap srv !! l0) as [[c0 []]|]; try done. simplify_eq.
    unfold catchInit in Hl.
    destruct (shutdownWithError err (Channel.set_state Invalid c0)).
    simpl in Hl. rewrite heap_fire in Hl. by destruct (Hst _ _ _ Hl).
  - simplify_eq. simpl in Hl. congruence.
  - simplify_eq. simpl in Hl. congruence.
  - destruct (Srv.heap srv !! l0) as [[c0 t0]|]; [|done].
    destruct (Channel.subscription c0); [|done]. simplify_eq. by destruct (Hst _ _ _ Hl).
  - destruct (Srv.heap srv !! l0) as [[c0 t0]|]; [|done].
    destruct (Channel.subscription c0); [|done]. simplify_eq. by destruct (Hst _ _ _ Hl).
  - destruct (Srv.heap srv !! l0) as [[c0 t0]|]; [|done].
    destruct (Channel.subscription c0); [|done]. simplify_eq. by destruct (Hst _ _ _ Hl).
  - destruct (Srv.heap srv !! l0) as [[c0 t0]|]; [|done].
    destruct (disconnect c0). simplify_eq.
    rewrite heap_fire in Hl. by destruct (Hst _ _ _ Hl).
Qed.

(** X8: the fields of a channel follow the order of [initChannel].  In
    every state the service reaches, a channel whose resolver has not
    answered, or that was built for an unknown scope, has no configuration
    and no subscription; a channel waiting at the connection blocker has
    its configuration and no subscription; a channel whose initialization
    failed has no subscription.  So a channel that holds a subscription has
    a configuration, and its [initChannel] has returned. *)
Theorem subscription_follows_configuration srv l c t :
  reachable srv →
  Srv.heap srv !! l = Some (c, t) →
  staged c t
  ∧ (Channel.subscription c = true → t = Fulfilled ∧ is_Some (Channel.config c)).
Proof.
  intros (connected & evs & Hrun) Hl.
  assert (Hall : ∀ l c t, Srv.heap srv !! l = Some (c, t) → staged c t).
  { revert Hrun.
    apply (run_invariant (λ s, ∀ l c t, Srv.heap s !! l = Some (c, t) → staged c t)).
    - intros s ev s' Hs Hstep l1 c1 t1 Hl1.
      destruct (Srv.heap s !! l1) as [[c0 t0]|] eqn:H0.
      + destruct (step_at _ _ _ _ _ _ Hstep H0) as (c2 & t2 & Hl2 & He).
        rewrite Hl1 in Hl2. simplify_eq. eapply evolves_staged; eauto.
      + by eapply step_new_entry.
    - simpl. intros ? ? ? H. by rewrite lookup_nil in H. }
  specialize (Hall _ _ _ Hl). split; [done|].
  intros Hsub. destruct t; simpl in Hall; destruct_and?; try congruence. done.
Qed.

Lemma subscription_follows_configuration_witness :
  ∃ srv c,
    run (newCentrifugeSrv true)
      [EGetChannel dashboard; ESupport 0 (Some with_config) SubOk] = Some srv
    ∧ Srv.heap srv !! 0 = Some (c, Fulfilled)
    ∧ is_Some (Channel.config c).
Proof.
  eexists _, _. split; [vm_compute; reflexivity|]. split; [vm_compute; reflexivity|].
  refine (proj1 (subscription_follows_configuration _ 0 _ Fulfilled _ _)).
  - exists true, [EGetChannel dashboard; ESupport 0 (Some with_config) SubOk].
    vm_compute. reflexivity.
  - vm_compute. reflexivity.
Defined.

(** ** [getChannelInfo] and [initChannel] *)

(** X9: [getChannelInfo] and the initialization of a new channel go through
    the same lookups, with one difference.  For an address of a known
    scope, free in the registry, and the same answer of the resolver: when
    [getChannelInfo] rejects, [initChannel] rejects with the same message;
    when it resolves with a configuration, [initChannel] records that
    configuration and goes on to the blocker or to [subscribe]; when it
    resolves with [undefined], [initChannel] rejects with [unknown path]. *)
Theorem getChannelInfo_previews_initChannel srv addr scope getChannelSupport out :
  scopes !! Addr.scope addr = Some scope →
  Srv.open srv !! channelId addr = None →
  ∃ s2 c2 t2,
    step (getChannel srv addr).1
      (ESupport (getChannel srv addr).2
         (getChannelSupport scope (Addr.namespace addr)) out) = Some s2
    ∧ Srv.heap s2 !! (getChannel srv addr).2 = Some (c2, t2)
    ∧ match getChannelInfo getChannelSupport addr with
      | RejectedWith err => t2 = Rejected err ∧ Channel.config c2 = None
      | Resolved None =>
          t2 = Rejected ("unknown path: " +:+ Addr.path addr)
          ∧ Channel.config c2 = None
      | Resolved (Some config) =>
          Channel.config c2 = Some config
          ∧ t2 = (if Srv.isConnected srv
                  then match out with SubOk => Fulfilled | SubThrows err => Rejected err end
                  else AwaitBlocker)
      end.
Proof.
  intros Hs Ho. unfold getChannelInfo. rewrite Hs.
  rewrite (getChannel_create _ _ _ Ho Hs). cbn [fst snd].
  set (l := length (Srv.heap srv)).
  set (c0 := Channel.set_shutdownCallback (Some (channelId addr))
               (Channel.new (channelId addr) addr)).
  set (srv1 := Srv.set_open _ _).
  assert (Hl1 : Srv.heap srv1 !! l = Some (c0, AwaitSupport scope)).
  { unfold srv1, l. simpl. rewrite lookup_app_r, Nat.sub_diag by done. done. }
  unfold step. rewrite Hl1. unfold initChannel.
  change (Channel.addr c0) with addr.
  change (Srv.isConnected srv1) with (Srv.isConnected srv).
  destruct (getChannelSupport scope (Addr.namespace addr)) as [sup|].
  - destruct (getChannelConfig sup (Addr.path addr)) as [g|].
    + destruct (Srv.isConnected srv); simpl.
      * destruct out; simpl; eexists _, _, _; (split; [done|]);
          rewrite (heap_store_eq _ _ _ _ _ _ Hl1); done.
      * eexists _, _, _. split; [done|]. rewrite (heap_store_eq _ _ _ _ _ _ Hl1). done.
    + eexists _, _, _. split; [done|]. rewrite (heap_store_eq _ _ _ _ _ _ Hl1). done.
  - eexists _, _, _. split; [done|]. rewrite (heap_store_eq _ _ _ _ _ _ Hl1). done.
Qed.

Lemma getChannelInfo_previews_initChannel_witness :
  ∃ s2 c2,
    step (getChannel (newCentrifugeSrv false) dashboard).1
      (ESupport 0 (Some no_config) SubOk) = Some s2
    ∧ Srv.heap s2 !! 0 = Some (c2, Rejected "unknown path: abc").
Proof.
  destruct (getChannelInfo_previews_initChannel (newCentrifugeSrv false) dashboard Grafana
              (λ _ _, Some no_config) SubOk) as (s2 & c2 & t2 & H1 & H2 & H3).
  - vm_compute. reflexivity.
  - vm_compute. reflexivity.
  - exists s2, c2. split; [exact H1|].
    destruct H3 as [-> _]. exact H2.
Defined.

(** ** The observer of a data stream *)

Section DataStreamFurther.

Context `{DataImports}.

Lemma process_throttle options msg perfLast perfOk s :
  Sub.key (process options msg perfLast perfOk s) = Sub.key s
  ∧ Sub.state (process options msg perfLast perfOk s) = Streaming
  ∧ (perfOk = false → (perfLast - Sub.last s ≤ 1000)%Z →
     Sub.out (process options msg perfLast perfOk s) = Sub.out s
     ∧ Sub.last (process options msg perfLast perfOk s) = Sub.last s)
  ∧ (perfOk = true ∨ (1000 < perfLast - Sub.last s)%Z →
     Sub.last (process options msg perfLast perfOk s) = perfLast
     ∧ ∃ view d,
         Sub.data (process options msg perfLast perfOk s) = Some d
         ∧ Sub.out (process options msg perfLast perfOk s)
           = subscriberNext
               (Response.mk Streaming [Some (snapshot view d)] (Some (Sub.key s)) None)
               (Sub.out s)).
Proof.
  unfold process.
  destruct (bool_decide (1000 < perfLast - Sub.last s)%Z || perfOk) eqn:Hb; simpl.
  - split; [done|]. split; [done|]. split.
    + intros -> Hle. rewrite orb_false_r in Hb. apply bool_decide_eq_true in Hb. lia.
    + intros _. split; [done|]. eauto.
  - split; [done|]. split; [done|]. split; [done|].
    apply orb_false_iff in Hb as [Hb ->]. apply bool_decide_eq_false in Hb.
    intros [?|?]; [done|lia].
Qed.

(** X10: the throttle holds responses back, not rows.  Messages without a
    schema that arrive while [perf.ok] is false and no more than 1000 after
    the last response produce no response and leave the time of the last
    response as it was, yet each is pushed into the buffer.  The next
    message that the throttle lets through is answered by one response in
    the Streaming state, whose frame is a view of the buffer with all the
    rows pushed meanwhile. *)
Theorem throttle_keeps_rows options notes : ∀ s d,
  Sub.closed s = false →
  Sub.data s = Some d →
  fits d →
  Complete ∉ Sub.out s →
  Forall (λ n, throttled (Sub.last s) n = true) notes →
  Sub.out (observeAll options s notes) = Sub.out s
  ∧ Sub.last (observeAll options s notes) = Sub.last s
  ∧ Sub.data (observeAll options s notes)
    = Some (SDF.mk (SDF.fields d)
              (evict (SDF.maxLength d) (SDF.rows d ++ (notes ≫= noteRows)))
              (SDF.maxLength d))
  ∧ ∀ msg perfLast,
      Msg.schema msg = None →
      ∃ view,
        Sub.out (observe options (observeAll options s notes)
                   (SNext (MessageEvent msg) perfLast true))
        = Sub.out s
          ++ [Next (Response.mk Streaming
                      [Some (snapshot view
                               (SDF.mk (SDF.fields d)
                                  (evict (SDF.maxLength d)
                                     (SDF.rows d ++ (notes ≫= noteRows) ++ Msg.data msg))
                                  (SDF.maxLength d)))]
                      (Some (Sub.key s)) None)].
Proof.
  assert (Hgen : ∀ s d,
    Sub.closed s = false → Sub.data s = Some d → fits d →
    Forall (λ n, throttled (Sub.last s) n = true) notes →
    Sub.out (observeAll options s notes) = Sub.out s
    ∧ Sub.last (observeAll options s notes) = Sub.last s
    ∧ Sub.key (observeAll options s notes) = Sub.key s
    ∧ Sub.closed (observeAll options s notes) = false
    ∧ Sub.data (observeAll options s notes)
      = Some (SDF.mk (SDF.fields d)
                (evict (SDF.maxLength d) (SDF.rows d ++ (notes ≫= noteRows)))
                (SDF.maxLength d))).
  { induction notes as [|n notes IH]; intros s d Hc Hd Hfit Hall.
    - simpl. rewrite app_nil_r, Hfit. repeat (split; [done|]).
      rewrite Hd. by destruct d.
    - apply Forall_cons in Hall as [Hn Hall].
      destruct n as [[msg|] pl ok| |]; try done. simpl in Hn.
      destruct (Msg.schema msg) eqn:Hschema; [done|].
      apply andb_true_iff in Hn as [Hok Hle].
      apply negb_true_iff in Hok. apply bool_decide_eq_true in Hle.
      change (observeAll options s (SNext (MessageEvent msg) pl ok :: notes))
        with (observeAll options (observe options s (SNext (MessageEvent msg) pl ok)) notes).
      change ((SNext (MessageEvent msg) pl ok :: notes) ≫= noteRows)
        with (Msg.data msg ++ (notes ≫= noteRows)).
      rewrite (observe_message _ _ _ _ _ Hc).
      destruct (process_data options msg pl ok s) as [Hd1 Hc1]. rewrite Hd in Hd1.
      rewrite (push_data_only _ _ Hschema Hfit) in Hd1.
      destruct (process_throttle options msg pl ok s) as (Hk1 & _ & Hthr & _).
      destruct (Hthr Hok Hle) as [Ho1 Hl1].
      edestruct (IH (process options msg pl ok s)) as (H1 & H2 & H3 & H4 & H5);
        [congruence|exact Hd1|apply evict_idemp|by rewrite Hl1|].
      cbn [SDF.fields SDF.rows SDF.maxLength] in H5.
      rewrite evict_app, <- app_assoc in H5.
      split; [congruence|]. split; [congruence|]. split; [congruence|]. done. }
  intros s d Hc Hd Hfit Hopen Hall.
  destruct (Hgen s d Hc Hd Hfit Hall) as (H1 & H2 & H3 & H4 & H5).
  repeat (split; [done|]).
  intros msg perfLast Hschema.
  rewrite (observe_message _ _ _ _ _ H4).
  destruct (process_throttle options msg perfLast true (observeAll options s notes))
    as (_ & _ & _ & Hemit).
  destruct (Hemit (or_introl eq_refl)) as (_ & view & d' & Hd' & Hout).
  destruct (process_data options msg perfLast true (observeAll options s notes)) as [Hd1 _].
  rewrite H5 in Hd1. rewrite push_data_only in Hd1; [|done|apply evict_idemp].
  cbn [SDF.fields SDF.rows SDF.maxLength] in Hd1.
  rewrite evict_app, <- app_assoc in Hd1.
  rewrite Hd' in Hd1. injection Hd1 as ->.
  exists view. rewrite Hout, H1, H3. by apply subscriberNext_open.
Qed.

(** A subscription that is listening and has not closed has not been told
    [complete]. *)
Lemma listening_open options srv counter perfLast srv' counter' channel s0 notes :
  subscribeDataStream srv counter perfLast (getDataStream options)
  = (srv', counter', Listening channel s0) →
  Sub.closed (observeAll options s0 notes) = false →
  Complete ∉ Sub.out (observeAll options s0 notes).
Proof.
  intros Hsub Hc. apply observeAll_open; [|done]. intros _.
  unfold getDataStream in Hsub.
  destruct (negb (isValidLiveChannelAddress (Options.addr options))); [done|].
  simpl in Hsub. destruct (getChannel srv (Options.addr options)) as [srv1 ch].
  destruct (Options.frame options);
    destruct (channelAt srv1 ch ≫= Channel.lastMessageWithSchema);
    destruct (truthy (Options.key options));
    injection Hsub as <- <- <- <-; simpl; apply not_elem_of_nil.
Qed.

(** X11: when the channel's stream completes, the subscriber is told
    [complete] and receives no response for it; the state becomes Done,
    unless it was Error, which is kept; the buffer is left as it is, and
    whatever the channel's stream sends afterwards changes nothing. *)
Theorem completion_keeps_error options srv counter perfLast srv' counter' channel s0
    notes later :
  subscribeDataStream srv counter perfLast (getDataStream options)
  = (srv', counter', Listening channel s0) →
  Sub.closed (observeAll options s0 notes) = false →
  Sub.out (observeAll options (observeAll options s0 notes) (SComplete :: later))
  = Sub.out (observeAll options s0 notes) ++ [Complete]
  ∧ Sub.state (observeAll options (observeAll options s0 notes) (SComplete :: later))
    = match Sub.state (observeAll options s0 notes) with Error => Error | _ => Done end
  ∧ Sub.closed (observeAll options (observeAll options s0 notes) (SComplete :: later))
    = true
  ∧ Sub.data (observeAll options (observeAll options s0 notes) (SComplete :: later))
    = Sub.data (observeAll options s0 notes).
Proof.
  intros Hsub Hc. pose proof (listening_open _ _ _ _ _ _ _ _ _ Hsub Hc) as Hopen.
  set (s := observeAll options s0 notes) in *.
  change (observeAll options s (SComplete :: later))
    with (observeAll options (observe options s SComplete) later).
  assert (He : observe options s SComplete = onStreamComplete s).
  { unfold observe. by rewrite Hc. }
  rewrite observeAll_closed by (by rewrite He).
  rewrite He. simpl. unfold subscriberComplete.
  by rewrite bool_decide_eq_false_2.
Qed.

(** X12: a status event that carries an error is answered by one response
    in the Error state, whose error message is prefixed with [Streaming
    channel error: ], with the buffer as it stands; the subscription stays
    open and the buffer and the throttle are untouched.  The error is not
    final: the next message that passes the throttle brings the state back
    to Streaming and is answered by a response without error. *)
Theorem status_error_is_not_terminal options srv counter perfLast srv' counter' channel s0
    notes st e emsg pl ok :
  subscribeDataStream srv counter perfLast (getDataStream options)
  = (srv', counter', Listening channel s0) →
  Sub.closed (observeAll options s0 notes) = false →
  truthy (Some e) = true →
  Sub.out (observe options (observeAll options s0 notes)
             (SNext (StatusEvent st (Some e) emsg) pl ok))
  = Sub.out (observeAll options s0 notes)
    ++ [Next (Response.mk Error (dataNow (observeAll options s0 notes))
                (Some (Sub.key (observeAll options s0 notes)))
                (Some {| message := "Streaming channel error: "
                                    +:+ message (toDataQueryError e) |}))]
  ∧ Sub.state (observe options (observeAll options s0 notes)
                 (SNext (StatusEvent st (Some e) emsg) pl ok)) = Error
  ∧ Sub.closed (observe options (observeAll options s0 notes)
                  (SNext (StatusEvent st (Some e) emsg) pl ok)) = false
  ∧ Sub.data (observe options (observeAll options s0 notes)
                (SNext (StatusEvent st (Some e) emsg) pl ok))
    = Sub.data (observeAll options s0 notes)
  ∧ Sub.last (observe options (observeAll options s0 notes)
                (SNext (StatusEvent st (Some e) emsg) pl ok))
    = Sub.last (observeAll options s0 notes)
  ∧ ∀ msg pl',
      Sub.state (observe options
                   (observe options (observeAll options s0 notes)
                      (SNext (StatusEvent st (Some e) emsg) pl ok))
                   (SNext (MessageEvent msg) pl' true)) = Streaming
      ∧ ∃ r,
          Sub.out (observe options
                     (observe options (observeAll options s0 notes)
                        (SNext (StatusEvent st (Some e) emsg) pl ok))
                     (SNext (MessageEvent msg) pl' true))
          = Sub.out (observe options (observeAll options s0 notes)
                       (SNext (StatusEvent st (Some e) emsg) pl ok))
            ++ [Next r]
          ∧ Response.state r = Streaming ∧ Response.error r = None.
Proof.
  intros Hsub Hc He. pose proof (listening_open _ _ _ _ _ _ _ _ _ Hsub Hc) as Hopen.
  set (s := observeAll options s0 notes) in *.
  assert (E : observe options s (SNext (StatusEvent st (Some e) emsg) pl ok)
              = Sub.mk (Sub.data s) (Sub.filtered s) Error (Sub.key s) (Sub.last s)
                  false
                  (Sub.out s
                   ++ [Next (Response.mk Error (dataNow s) (Some (Sub.key s))
                               (Some {| message := "Streaming channel error: "
                                                   +:+ message (toDataQueryError e) |}))])).
  { unfold observe. rewrite Hc. unfold onStreamNext. rewrite He. simpl.
    rewrite subscriberNext_open by done. by rewrite Hc. }
  rewrite E. simpl. repeat (split; [done|]).
  intros msg pl'. rewrite observe_message by done.
  destruct (process_throttle options msg pl' true
              (Sub.mk (Sub.data s) (Sub.filtered s) Error (Sub.key s) (Sub.last s) false
                 (Sub.out s
                  ++ [Next (Response.mk Error (dataNow s) (Some (Sub.key s))
                              (Some {| message := "Streaming channel error: "
                                                  +:+ message (toDataQueryError e) |}))])))
    as (_ & Hst & _ & Hemit).
  split; [done|].
  destruct (Hemit (or_introl eq_refl)) as (_ & view & d & _ & Hout).
  rewrite Hout. simpl.
  rewrite subscriberNext_open; [eexists; split; [reflexivity|done]|].
  rewrite elem_of_app, list_elem_of_singleton. intros [?|?]; done.
Qed.




(** X15: data streams are multiplexed.  After a data stream is subscribed
    for a valid address of a known scope, a later subscription for the same
    address listens to the same channel and leaves the service as it is,
    whatever events occur in between, provided none of them is the teardown
    of a channel with that key. *)
Theorem data_streams_share_channel options1 options2 srv n1 pl1 srv1 n1' ch1 s1 evs
    srv2 n2 pl2 srv3 n2' ch2 s2 :
  reachable srv →
  is_Some (scopes !! Addr.scope (Options.addr options1)) →
  Options.addr options2 = Options.addr options1 →
  subscribeDataStream srv n1 pl1 (getDataStream options1)
  = (srv1, n1', Listening ch1 s1) →
  run srv1 evs = Some srv2 →
  (∀ l0 c0 t0, (ECatch l0 ∈ evs ∨ EShutdown l0 ∈ evs) →
               Srv.heap srv2 !! l0 = Some (c0, t0) →
               Channel.id c0 ≠ channelId (Options.addr options1)) →
  subscribeDataStream srv2 n2 pl2 (getDataStream options2)
  = (srv3, n2', Listening ch2 s2) →
  ch2 = ch1 ∧ srv3 = srv2.
Proof.
  intros Hr Hscope Haddr Hs1 Hrun Hother Hs2.
  assert (Hsub : ∀ options srv n pl srv' n' ch s,
    subscribeDataStream srv n pl (getDataStream options) = (srv', n', Listening ch s) →
    getChannel srv (Options.addr options) = (srv', ch)).
  { intros options srv0 n pl srv' n' ch s Hsub. unfold getDataStream in Hsub.
    destruct (negb (isValidLiveChannelAddress (Options.addr options))); [done|].
    simpl in Hsub. destruct (getChannel srv0 (Options.addr options)) as [srv00 ch0].
    destruct (Options.frame options);
      destruct (channelAt srv00 ch0 ≫= Channel.lastMessageWithSchema);
      destruct (truthy (Options.key options));
      injection Hsub as <- <- <- <-; done. }
  apply Hsub in Hs1. apply Hsub in Hs2. rewrite Haddr in Hs2.
  assert (Hk : Srv.open srv2 !! channelId (Options.addr options1) = Some ch1).
  { eapply run_keeps_entry; [|done| |done].
    - replace srv1 with (getChannel srv (Options.addr options1)).1 by by rewrite Hs1.
      apply inv_getChannel. by apply reachable_inv.
    - destruct (Srv.open srv !! channelId (Options.addr options1)) as [l0|] eqn:Ho.
      + rewrite (getChannel_hit _ _ _ Ho) in Hs1. by simplify_eq.
      + destruct Hscope as [sc Hsc].
        rewrite (getChannel_create _ _ _ Ho Hsc) in Hs1. simplify_eq.
        simpl. apply lookup_insert_eq. }
  rewrite (getChannel_hit _ _ _ Hk) in Hs2. by simplify_eq.
Qed.

End DataStreamFurther.

(** ** The observer on an instance *)

Lemma throttle_keeps_rows_witness :
  ∃ view,
    Sub.out
      (observeAll (H := exampleImports) tail2
         (Sub.mk (Some (SDF.mk [] [row 1] (Some 2))) None Streaming "tail" 0 false [])
         [SNext (MessageEvent (Msg.mk None [row 2])) 500 false;
          SNext (MessageEvent (Msg.mk None [row 3])) 900 false;
          SNext (MessageEvent (Msg.mk None [row 4])) 950 true])
    = [Next (Response.mk Streaming
               [Some (snapshot view (SDF.mk [] [row 3; row 4] (Some 2)))]
               (Some "tail") None)].
Proof.
  destruct (throttle_keeps_rows (H := exampleImports) tail2
              [SNext (MessageEvent (Msg.mk None [row 2])) 500 false;
               SNext (MessageEvent (Msg.mk None [row 3])) 900 false]
              (Sub.mk (Some (SDF.mk [] [row 1] (Some 2))) None Streaming "tail" 0 false [])
              (SDF.mk [] [row 1] (Some 2))) as (_ & _ & _ & Hnext).
  - reflexivity.
  - reflexivity.
  - reflexivity.
  - apply not_elem_of_nil.
  - repeat constructor.
  - destruct (Hnext (Msg.mk None [row 4]) 950%Z eq_refl) as [view Hout].
    exists view. exact Hout.
Defined.

Lemma completion_keeps_error_witness :
  ∃ s0,
    (subscribeDataStream (H := exampleImports) (newCentrifugeSrv false) 0 0
       (getDataStream (H := exampleImports) tail2)).2 = Listening 0 s0
    ∧ Sub.out (observeAll (H := exampleImports) tail2 s0
                 [SComplete; SNext (MessageEvent (Msg.mk None [row 3])) 5000 true])
      = [Complete].
Proof.
  eexists. split; [vm_compute; reflexivity|].
  refine (proj1 (completion_keeps_error (H := exampleImports) tail2
                   (newCentrifugeSrv false) 0 0 _ _ 0 _ []
                   [SNext (MessageEvent (Msg.mk None [row 3])) 5000 true] _ _)).
  - vm_compute. reflexivity.
  - reflexivity.
Defined.

Lemma status_error_is_not_terminal_witness :
  ∃ s0,
    (subscribeDataStream (H := exampleImports) (newCentrifugeSrv false) 0 0
       (getDataStream (H := exampleImports) tail2)).2 = Listening 0 s0
    ∧ Sub.state (observe (H := exampleImports) tail2 (observeAll (H := exampleImports) tail2 s0 [])
                   (SNext (StatusEvent Connected (Some "lost") None) 10 false))
      = Error.
Proof.
  eexists. split; [vm_compute; reflexivity|].
  refine (proj1 (proj2 (status_error_is_not_terminal (H := exampleImports) tail2
                          (newCentrifugeSrv false) 0 0 _ _ 0 _ [] Connected "lost" None
                          10 false _ _ _))).
  - vm_compute. reflexivity.
  - reflexivity.
  - reflexivity.
Defined.


Lemma data_streams_share_channel_witness :
  ∃ srv1 s1 srv2,
    subscribeDataStream (H := exampleImports) (newCentrifugeSrv false) 0 0
      (getDataStream (H := exampleImports) keyless) = (srv1, 1, Listening 0 s1)
    ∧ run srv1 [EConnect] = Some srv2
    ∧ (subscribeDataStream (H := exampleImports) srv2 1 7
         (getDataStream (H := exampleImports) tail2)).1.1 = srv2.
Proof.
  eexists _, _, _. split; [vm_compute; reflexivity|]. split; [vm_compute; reflexivity|].
  refine (proj2 (data_streams_share_channel (H := exampleImports) keyless tail2
                   (newCentrifugeSrv false) 0 0 _ 1 0 _ [EConnect] _ 1 7 _ 1 0 _
                   _ _ _ _ _ _ _)).
  - exists false, []. reflexivity.
  - vm_compute. eauto.
  - reflexivity.
  - vm_compute. reflexivity.
  - vm_compute. reflexivity.
  - intros l0 c0 t0 [Hin|Hin];
      apply elem_of_cons in Hin as [Hin|Hin]; try discriminate;
      by apply elem_of_nil in Hin.
  - vm_compute. reflexivity.
Defined.

(** ** The filter of a data stream *)

Section DataStreamFilter.

Context `{DataImports}.

(** X16: the frame of a response is the buffer seen through the filter of
    the options.  When a message passes the throttle and the view is
    computed (no view yet, or the message has a schema), the frame handed
    to the subscriber has as many rows as the buffer; its fields are the
    buffer's fields whose name the filter lists, in the buffer's order, and
    all of the buffer's fields when there is no filter or its list is
    absent or empty. *)
Theorem emitted_frame_is_filtered options msg perfLast s :
  Complete ∉ Sub.out s →
  Sub.filtered s = None ∨ is_Some (Msg.schema msg) →
  ∃ d frame,
    Sub.data (process options msg perfLast true s) = Some d
    ∧ Sub.out (process options msg perfLast true s)
      = Sub.out s ++ [Next (Response.mk Streaming [Some frame] (Some (Sub.key s)) None)]
    ∧ length (Frame.rows frame) = length (SDF.rows d)
    ∧ Frame.fields frame
      = match Options.filter options with
        | Some (Some (f :: fields)) =>
            filter (λ x, fname x ∈ f :: fields) (SDF.fields d)
        | _ => SDF.fields d
        end.
Proof.
  intros Hopen Hview. unfold process.
  rewrite orb_true_r. cbn [Sub.data Sub.out].
  rewrite subscriberNext_open by done.
  eexists _, _. split; [done|]. split; [done|].
  assert (Hv : match Sub.filtered s, Msg.schema msg with
               | Some view, None => view
               | _, _ =>
                   match Options.filter options with
                   | Some (Some (f :: fields)) => Some (f :: fields)
                   | _ => None
                   end
               end
               = match Options.filter options with
                 | Some (Some (f :: fields)) => Some (f :: fields)
                 | _ => None
                 end).
  { destruct Hview as [->|[fs ->]]; [done|]. by destruct (Sub.filtered s). }
  rewrite Hv.
  destruct (Options.filter options) as [[[|f fields]|]|]; simpl; try done.
  by rewrite length_fmap.
Qed.

End DataStreamFilter.

Lemma emitted_frame_is_filtered_witness :
  ∃ d frame,
    Sub.data (process (H := exampleImports)
                (Options.mk dashboard None (Some "k") None (Some (Some ["time"])))
                (Msg.mk (Some [{| fname := "time"; ftype := FTime |};
                               {| fname := "value"; ftype := FNumber |}])
                   [[VNum 1; VNum 10]])
                0 true (Sub.mk None None Loading "k" 0 false [])) = Some d
    ∧ length (Frame.rows frame) = length (SDF.rows d)
    ∧ Frame.fields frame = [{| fname := "time"; ftype := FTime |}].
Proof.
  destruct (emitted_frame_is_filtered (H := exampleImports)
              (Options.mk dashboard None (Some "k") None (Some (Some ["time"])))
              (Msg.mk (Some [{| fname := "time"; ftype := FTime |};
                             {| fname := "value"; ftype := FNumber |}])
                 [[VNum 1; VNum 10]])
              0 (Sub.mk None None Loading "k" 0 false []))
    as (d & frame & Hd & _ & Hlen & Hf).
  - apply not_elem_of_nil.
  - left. reflexivity.
  - exists d, frame. split; [exact Hd|]. split; [exact Hlen|].
    rewrite Hf. vm_compute in Hd. injection Hd as <-. vm_compute. reflexivity.
Defined.

(** ** The registry map is consistent *)

(** X17: in every state the service reaches, a reference the registry map
    holds under a key is that of a channel of the store whose id is the
    key, which is the key of the channel's address; the channel is not in a
    terminal state, its stream has not ended and its teardown callback
    deletes that key.  No channel is held under two keys. *)
Theorem registry_is_consistent srv k l :
  reachable srv →
  Srv.open srv !! k = Some l →
  (∃ c t,
     Srv.heap srv !! l = Some (c, t)
     ∧ Channel.id c = k
     ∧ k = channelId (Channel.addr c)
     ∧ terminal (Channel.state c) = false
     ∧ Channel.stopped c = false
     ∧ Channel.shutdownCallback c = Some k)
  ∧ ∀ k', Srv.open srv !! k' = Some l → k' = k.
Proof.
  intros Hr Hk. pose proof (reachable_inv _ Hr) as Hinv.
  destruct (inv_open _ Hinv _ _ Hk) as (c & t & Hl & Hid & Hterm).
  destruct (inv_live _ Hinv _ _ _ Hl Hterm) as [Hstop Hcb].
  split.
  - exists c, t. split; [done|]. split; [done|].
    split; [by rewrite <- Hid; eapply inv_id|]. split; [done|]. split; [done|].
    by rewrite Hcb, Hid.
  - intros k' Hk'.
    destruct (inv_open _ Hinv _ _ Hk') as (c' & t' & Hl' & Hid' & _).
    rewrite Hl in Hl'. by simplify_eq.
Qed.

Lemma registry_is_consistent_witness :
  ∃ srv,
    run (newCentrifugeSrv false) [EGetChannel dashboard; EGetChannel nested] = Some srv
    ∧ Srv.open srv !! channelId nested = Some 1
    ∧ ∀ k', Srv.open srv !! k' = Some 1 → k' = channelId nested.
Proof.
  eexists. split; [vm_compute; reflexivity|]. split; [vm_compute; reflexivity|].
  refine (proj2 (registry_is_consistent _ (channelId nested) 1 _ _)).
  - exists false, [EGetChannel dashboard; EGetChannel nested]. vm_compute. reflexivity.
  - vm_compute. reflexivity.
Defined.
